(** * The resource requirements collector and the provider process supervisor

    A shallow embedding of [pkgplus/collector/service.go] and
    [pkgplus/provider/exec.go], with the properties the specification
    states about them.

    Conventions of the embedding:
    - a Go map is a [gmap]; [len m] is [size m]; a comma-ok lookup
      [_, found := m[k]] is [is_Some (m !! k)];
    - a pointer that may be nil is an [option]; a pointer the code has
      already tested against nil, or that the RPC runtime never leaves nil,
      is the value itself;
    - a repeated protobuf field is a [list]: the wire format has no
      presence bit for it and the decoder leaves the slice nil when it is
      empty, so [x == nil] on such a field is [x = []];
    - a method with a pointer receiver takes the struct and returns the
      struct it leaves behind;
    - [len] yields a [nat]. *)

From stdpp Require Import gmap strings list fin_maps pretty.
From Stdlib Require Import ZArith Lia.

Local Open Scope string_scope.
Local Open Scope list_scope.

(** ** Go values shared by both packages *)

(** [error]: what [fmt.Errorf] builds.  A format without [%w] gives a plain
    message; [%w] keeps the wrapped error reachable through [Unwrap]. *)
Inductive error : Type :=
  | errorString (msg : string)
  | wrapError (msg : string) (err : error).

Fixpoint Error (e : error) : string :=
  match e with
  | errorString msg => msg
  | wrapError msg err => msg +:+ Error err
  end.

Definition Unwrap (e : error) : option error :=
  match e with
  | errorString _ => None
  | wrapError _ err => Some err
  end.

Global Instance error_eq_dec : EqDecision error.
Proof. solve_decision. Defined.

(** What a call leaves behind: it returns, or it panics (a nil pointer
    dereference). *)
Inductive outcome (A : Type) : Type :=
  | Returned (a : A)
  | Panicked.
Arguments Returned {A} a.
Arguments Panicked {A}.

(** The part of a protobuf message this repository never reads. *)
Definition unread : Type := string.

(** ** github.com/samber/lo, as far as the collector calls it *)
Module lo.

(** [lo.Find]: the first element satisfying the predicate, and whether
    there is one. *)
Fixpoint Find {T : Type} (collection : list T) (predicate : T → bool)
  : option T :=
  match collection with
  | [] => None
  | item :: rest =>
      if predicate item then Some item else Find rest predicate
  end.

(** [lo.Intersect]: the elements of [list2] that occur in [list1]. *)
Definition Intersect `{EqDecision T} (list1 list2 : list T) : list T :=
  filter (λ elem, elem ∈ list1) list2.

(** [lo.Values]: the values of a map, one per key. *)
Definition Values `{Countable K} {V : Type} (m : gmap K V) : list V :=
  (map_to_list m).*2.

End lo.

(** ** The protobuf messages (nitric core), as far as the code reads them *)

(** The first message of a stream is a oneof: a registration request or
    some other content. *)
Inductive ClientMessage (R : Type) : Type :=
  | ClientMessage_RegistrationRequest (registrationRequest : R)
  | ClientMessage_Other (content : unread).
Arguments ClientMessage_RegistrationRequest {R} registrationRequest.
Arguments ClientMessage_Other {R} content.

(** The nil-safe getter of generated code. *)
Definition GetRegistrationRequest {R : Type}
    (msg : option (ClientMessage R)) : option R :=
  match msg with
  | Some (ClientMessage_RegistrationRequest r) => Some r
  | _ => None
  end.

(** The only server message the collector builds. *)
Inductive ServerMessage : Type :=
  | ServerMessage_RegistrationResponse.

(** A server side stream, seen from a handler that receives once and
    sends once: what [Recv] yields, and what [Send] answers. *)
Record ServerStream (R : Type) : Type := {
  Recv : option (ClientMessage R) * option error;
  Send : ServerMessage → option error;
}.
Arguments Recv {R} _.
Arguments Send {R} _ _.

Module resourcespb.

Inductive ResourceType : Type :=
  | ResourceType_Api
  | ResourceType_Function
  | ResourceType_Bucket
  | ResourceType_Topic
  | ResourceType_Collection
  | ResourceType_Policy
  | ResourceType_Secret
  | ResourceType_ApiSecurityDefinition
  | ResourceType_other (number : Z). (* every other enum number *)

Global Instance ResourceType_eq_dec : EqDecision ResourceType.
Proof. solve_decision. Defined.

Record Resource : Type := {
  Type_ : ResourceType;
  Name : string;
}.

Global Instance Resource_eq_dec : EqDecision Resource.
Proof. solve_decision. Defined.

Record BucketResource : Type := { bucket_body : unread }.
Record CollectionResource : Type := { collection_body : unread }.
Record ApiResource : Type := { api_body : unread }.
Record SecretResource : Type := { secret_body : unread }.
Record TopicResource : Type := { topic_body : unread }.

Record ApiSecurityDefinitionResource : Type := {
  ApiName : string;
  definition : unread;
}.

Record PolicyResource : Type := {
  Principals : list Resource;
  Actions : list Z;
  Resources : list Resource;
}.

(** The [config] oneof of a declaration. *)
Inductive Config : Type :=
  | Config_unset
  | Config_Bucket (bucket : BucketResource)
  | Config_Collection (collection : CollectionResource)
  | Config_Api (api : ApiResource)
  | Config_ApiSecurityDefinition (def : ApiSecurityDefinitionResource)
  | Config_Secret (secret : SecretResource)
  | Config_Policy (policy : PolicyResource)
  | Config_Topic (topic : TopicResource)
  | Config_other (content : unread).

Record ResourceDeclareRequest : Type := {
  Resource_ : option Resource;
  config : Config;
}.

Record ResourceDeclareResponse : Type := {}.

(** Generated getters: nil-safe, and nil when the oneof holds another
    case. *)
Definition GetName (x : Resource) : string := Name x.
Definition GetType (x : Resource) : ResourceType := Type_ x.

Definition GetBucket (req : ResourceDeclareRequest) : option BucketResource :=
  match config req with Config_Bucket b => Some b | _ => None end.
Definition GetCollection (req : ResourceDeclareRequest)
  : option CollectionResource :=
  match config req with Config_Collection c => Some c | _ => None end.
Definition GetApi (req : ResourceDeclareRequest) : option ApiResource :=
  match config req with Config_Api a => Some a | _ => None end.
Definition GetApiSecurityDefinition (req : ResourceDeclareRequest)
  : option ApiSecurityDefinitionResource :=
  match config req with
  | Config_ApiSecurityDefinition d => Some d
  | _ => None
  end.
Definition GetSecret (req : ResourceDeclareRequest) : option SecretResource :=
  match config req with Config_Secret x => Some x | _ => None end.
Definition GetPolicy (req : ResourceDeclareRequest) : option PolicyResource :=
  match config req with Config_Policy p => Some p | _ => None end.
Definition GetTopic (req : ResourceDeclareRequest) : option TopicResource :=
  match config req with Config_Topic t => Some t | _ => None end.

Definition GetApiName (x : option ApiSecurityDefinitionResource) : string :=
  match x with Some d => ApiName d | None => EmptyString end.
Definition GetPrincipals (x : option PolicyResource) : list Resource :=
  match x with Some p => Principals p | None => [] end.

End resourcespb.

Module apispb.
Record RegistrationRequest : Type := {
  Api : string;
  Path : string;
  Methods : list string;
  Options : unread;
}.
End apispb.

Module httppb.
Record HttpProxyRequest : Type := { Host : string }.
Record HttpProxyResponse : Type := {}.
End httppb.

Module schedulespb.
Record RegistrationRequest : Type := {
  ScheduleName : string;
  Cadence : unread;
}.
End schedulespb.

Module topicspb.
Record RegistrationRequest : Type := { TopicName : string }.
End topicspb.

Module storagepb.
Record RegistrationRequest : Type := {
  BucketName : string;
  BlobEventType : Z;
  KeyPrefixFilter : string;
}.
End storagepb.

Module websocketspb.
Inductive WebsocketEventType : Type := Connect | Disconnect | Message.

Global Instance WebsocketEventType_eq_dec : EqDecision WebsocketEventType.
Proof. solve_decision. Defined.

(** The enum's [String] method, used by the [%s] verb. *)
Definition WebsocketEventType_String (t : WebsocketEventType) : string :=
  match t with
  | Connect => "Connect"
  | Disconnect => "Disconnect"
  | Message => "Message"
  end.

Record RegistrationRequest : Type := {
  SocketName : string;
  EventType : WebsocketEventType;
}.
End websocketspb.

(** ** package collector *)
Module collector.

(** [ServiceRequirements].  The mutex [resourceLock] is declared and never
    taken by any method, and the embedded unimplemented servers carry no
    state: neither is a field here. *)
Record ServiceRequirements : Type := {
  serviceName : string;
  serviceType : string;

  routes : gmap string (list apispb.RegistrationRequest);
  schedules : gmap string schedulespb.RegistrationRequest;
  subscriptions : gmap string (list topicspb.RegistrationRequest);
  websockets : gmap string (list websocketspb.RegistrationRequest);
  listeners : gmap string storagepb.RegistrationRequest;

  proxy : option httppb.HttpProxyRequest;
  apis : gmap string (option resourcespb.ApiResource);
  apiSecurityDefinition :
    gmap string (gmap string (option resourcespb.ApiSecurityDefinitionResource));
  buckets : gmap string (option resourcespb.BucketResource);
  collections : gmap string (option resourcespb.CollectionResource);
  topics : gmap string (option resourcespb.TopicResource);

  policies : gmap string resourcespb.PolicyResource;
  secrets : gmap string (option resourcespb.SecretResource);

  errors : list error;
}.

(** Field assignments [s.f = v]. *)
Definition set_routes (v : gmap string (list apispb.RegistrationRequest))
    (s : ServiceRequirements) : ServiceRequirements :=
  {| serviceName := serviceName s; serviceType := serviceType s;
     routes := v; schedules := schedules s;
     subscriptions := subscriptions s; websockets := websockets s;
     listeners := listeners s; proxy := proxy s; apis := apis s;
     apiSecurityDefinition := apiSecurityDefinition s;
     buckets := buckets s; collections := collections s;
     topics := topics s; policies := policies s; secrets := secrets s;
     errors := errors s |}.

Definition set_schedules (v : gmap string schedulespb.RegistrationRequest)
    (s : ServiceRequirements) : ServiceRequirements :=
  {| serviceName := serviceName s; serviceType := serviceType s;
     routes := routes s; schedules := v;
     subscriptions := subscriptions s; websockets := websockets s;
     listeners := listeners s; proxy := proxy s; apis := apis s;
     apiSecurityDefinition := apiSecurityDefinition s;
     buckets := buckets s; collections := collections s;
     topics := topics s; policies := policies s; secrets := secrets s;
     errors := errors s |}.

Definition set_subscriptions
    (v : gmap string (list topicspb.RegistrationRequest))
    (s : ServiceRequirements) : ServiceRequirements :=
  {| serviceName := serviceName s; serviceType := serviceType s;
     routes := routes s; schedules := schedules s;
     subscriptions := v; websockets := websockets s;
     listeners := listeners s; proxy := proxy s; apis := apis s;
     apiSecurityDefinition := apiSecurityDefinition s;
     buckets := buckets s; collections := collections s;
     topics := topics s; policies := policies s; secrets := secrets s;
     errors := errors s |}.

Definition set_websockets
    (v : gmap string (list websocketspb.RegistrationRequest))
    (s : ServiceRequirements) : ServiceRequirements :=
  {| serviceName := serviceName s; serviceType := serviceType s;
     routes := routes s; schedules := schedules s;
     subscriptions := subscriptions s; websockets := v;
     listeners := listeners s; proxy := proxy s; apis := apis s;
     apiSecurityDefinition := apiSecurityDefinition s;
     buckets := buckets s; collections := collections s;
     topics := topics s; policies := policies s; secrets := secrets s;
     errors := errors s |}.

Definition set_listeners (v : gmap string storagepb.RegistrationRequest)
    (s : ServiceRequirements) : ServiceRequirements :=
  {| serviceName := serviceName s; serviceType := serviceType s;
     routes := routes s; schedules := schedules s;
     subscriptions := subscriptions s; websockets := websockets s;
     listeners := v; proxy := proxy s; apis := apis s;
     apiSecurityDefinition := apiSecurityDefinition s;
     buckets := buckets s; collections := collections s;
     topics := topics s; policies := policies s; secrets := secrets s;
     errors := errors s |}.

Definition set_proxy (v : option httppb.HttpProxyRequest)
    (s : ServiceRequirements) : ServiceRequirements :=
  {| serviceName := serviceName s; serviceType := serviceType s;
     routes := routes s; schedules := schedules s;
     subscriptions := subscriptions s; websockets := websockets s;
     listeners := listeners s; proxy := v; apis := apis s;
     apiSecurityDefinition := apiSecurityDefinition s;
     buckets := buckets s; collections := collections s;
     topics := topics s; policies := policies s; secrets := secrets s;
     errors := errors s |}.

Definition set_apis (v : gmap string (option resourcespb.ApiResource))
    (s : ServiceRequirements) : ServiceRequirements :=
  {| serviceName := serviceName s; serviceType := serviceType s;
     routes := routes s; schedules := schedules s;
     subscriptions := subscriptions s; websockets := websockets s;
     listeners := listeners s; proxy := proxy s; apis := v;
     apiSecurityDefinition := apiSecurityDefinition s;
     buckets := buckets s; collections := collections s;
     topics := topics s; policies := policies s; secrets := secrets s;
     errors := errors s |}.

Definition set_apiSecurityDefinition
    (v : gmap string
           (gmap string (option resourcespb.ApiSecurityDefinitionResource)))
    (s : ServiceRequirements) : ServiceRequirements :=
  {| serviceName := serviceName s; serviceType := serviceType s;
     routes := routes s; schedules := schedules s;
     subscriptions := subscriptions s; websockets := websockets s;
     listeners := listeners s; proxy := proxy s; apis := apis s;
     apiSecurityDefinition := v;
     buckets := buckets s; collections := collections s;
     topics := topics s; policies := policies s; secrets := secrets s;
     errors := errors s |}.

Definition set_buckets (v : gmap string (option resourcespb.BucketResource))
    (s : ServiceRequirements) : ServiceRequirements :=
  {| serviceName := serviceName s; serviceType := serviceType s;
     routes := routes s; schedules := schedules s;
     subscriptions := subscriptions s; websockets := websockets s;
     listeners := listeners s; proxy := proxy s; apis := apis s;
     apiSecurityDefinition := apiSecurityDefinition s;
     buckets := v; collections := collections s;
     topics := topics s; policies := policies s; secrets := secrets s;
     errors := errors s |}.

Definition set_collections
    (v : gmap string (option resourcespb.CollectionResource))
    (s : ServiceRequirements) : ServiceRequirements :=
  {| serviceName := serviceName s; serviceType := serviceType s;
     routes := routes s; schedules := schedules s;
     subscriptions := subscriptions s; websockets := websockets s;
     listeners := listeners s; proxy := proxy s; apis := apis s;
     apiSecurityDefinition := apiSecurityDefinition s;
     buckets := buckets s; collections := v;
     topics := topics s; policies := policies s; secrets := secrets s;
     errors := errors s |}.

Definition set_topics (v : gmap string (option resourcespb.TopicResource))
    (s : ServiceRequirements) : ServiceRequirements :=
  {| serviceName := serviceName s; serviceType := serviceType s;
     routes := routes s; schedules := schedules s;
     subscriptions := subscriptions s; websockets := websockets s;
     listeners := listeners s; proxy := proxy s; apis := apis s;
     apiSecurityDefinition := apiSecurityDefinition s;
     buckets := buckets s; collections := collections s;
     topics := v; policies := policies s; secrets := secrets s;
     errors := errors s |}.

Definition set_policies (v : gmap string resourcespb.PolicyResource)
    (s : ServiceRequirements) : ServiceRequirements :=
  {| serviceName := serviceName s; serviceType := serviceType s;
     routes := routes s; schedules := schedules s;
     subscriptions := subscriptions s; websockets := websockets s;
     listeners := listeners s; proxy := proxy s; apis := apis s;
     apiSecurityDefinition := apiSecurityDefinition s;
     buckets := buckets s; collections := collections s;
     topics := topics s; policies := v; secrets := secrets s;
     errors := errors s |}.

Definition set_secrets (v : gmap string (option resourcespb.SecretResource))
    (s : ServiceRequirements) : ServiceRequirements :=
  {| serviceName := serviceName s; serviceType := serviceType s;
     routes := routes s; schedules := schedules s;
     subscriptions := subscriptions s; websockets := websockets s;
     listeners := listeners s; proxy := proxy s; apis := apis s;
     apiSecurityDefinition := apiSecurityDefinition s;
     buckets := buckets s; collections := collections s;
     topics := topics s; policies := policies s; secrets := v;
     errors := errors s |}.

Definition set_errors (v : list error)
    (s : ServiceRequirements) : ServiceRequirements :=
  {| serviceName := serviceName s; serviceType := serviceType s;
     routes := routes s; schedules := schedules s;
     subscriptions := subscriptions s; websockets := websockets s;
     listeners := listeners s; proxy := proxy s; apis := apis s;
     apiSecurityDefinition := apiSecurityDefinition s;
     buckets := buckets s; collections := collections s;
     topics := topics s; policies := policies s; secrets := secrets s;
     errors := v |}.

(** [s.errors = append(s.errors, err)] *)
Definition append_error (err : error) (s : ServiceRequirements)
  : ServiceRequirements :=
  set_errors (errors s ++ [err]) s.

(** [NewServiceRequirements]: every map is made, [errors] is empty, no
    proxy. *)
Definition NewServiceRequirements (serviceName serviceType : string)
  : ServiceRequirements :=
  let serviceType :=
    if decide (serviceType = EmptyString) then "default" else serviceType in
  {| serviceName := serviceName; serviceType := serviceType;
     routes := ∅; schedules := ∅; subscriptions := ∅; websockets := ∅;
     listeners := ∅; proxy := None; apis := ∅;
     apiSecurityDefinition := ∅; buckets := ∅; collections := ∅;
     topics := ∅; policies := ∅; secrets := ∅; errors := [] |}.

Definition WorkerCount (s : ServiceRequirements) : nat :=
  length (lo.Values (routes s)) +
  size (listeners s) +
  size (schedules s) +
  length (lo.Values (subscriptions s)) +
  length (lo.Values (websockets s)).

(** The loop body of the [Policy] case: a principal with an empty name
    and type [Function] gets the service's name. *)
Definition fill_principal (s : ServiceRequirements)
    (principal : resourcespb.Resource) : resourcespb.Resource :=
  if decide (resourcespb.GetName principal = EmptyString
             ∧ resourcespb.GetType principal
               = resourcespb.ResourceType_Function)
  then {| resourcespb.Type_ := resourcespb.Type_ principal;
          resourcespb.Name := serviceName s |}
  else principal.

(** [policy.Principals = v] *)
Definition set_Principals (v : list resourcespb.Resource)
    (policy : resourcespb.PolicyResource) : resourcespb.PolicyResource :=
  {| resourcespb.Principals := v;
     resourcespb.Actions := resourcespb.Actions policy;
     resourcespb.Resources := resourcespb.Resources policy |}.

(** [Declare], written [Declare_] to keep it apart from the vernacular
    keyword.  It panics where the source dereferences a nil pointer:
    [req.Resource.Type] when the request carries no resource, and the
    assignment to [req.GetPolicy().Principals] when a [Policy]
    declaration carries no policy; both happen before any field of [s]
    is written.  The policy stored is the request's own, updated in
    place. *)
Definition Declare_ (s : ServiceRequirements)
    (req : resourcespb.ResourceDeclareRequest)
  : ServiceRequirements
    * outcome (resourcespb.ResourceDeclareResponse * option error) :=
  let ok := Returned (resourcespb.Build_ResourceDeclareResponse, None) in
  match resourcespb.Resource_ req with
  | None => (s, Panicked)
  | Some resource =>
      let name := resourcespb.GetName resource in
      match resourcespb.Type_ resource with
      | resourcespb.ResourceType_Bucket =>
          (set_buckets (<[name := resourcespb.GetBucket req]> (buckets s)) s,
           ok)
      | resourcespb.ResourceType_Collection =>
          (set_collections
             (<[name := resourcespb.GetCollection req]> (collections s)) s,
           ok)
      | resourcespb.ResourceType_Api =>
          (set_apis (<[name := resourcespb.GetApi req]> (apis s)) s, ok)
      | resourcespb.ResourceType_ApiSecurityDefinition =>
          let def := resourcespb.GetApiSecurityDefinition req in
          let apiName := resourcespb.GetApiName def in
          let inner :=
            match apiSecurityDefinition s !! apiName with
            | None => ∅
            | Some defs => defs
            end in
          (set_apiSecurityDefinition
             (<[apiName := <[name := def]> inner]> (apiSecurityDefinition s))
             s,
           ok)
      | resourcespb.ResourceType_Secret =>
          (set_secrets (<[name := resourcespb.GetSecret req]> (secrets s)) s,
           ok)
      | resourcespb.ResourceType_Policy =>
          match resourcespb.GetPolicy req with
          | None => (s, Panicked)
          | Some policy =>
              let policy :=
                if decide (resourcespb.GetPrincipals (Some policy) = [])
                then
                  set_Principals
                    [ {| resourcespb.Type_ :=
                           resourcespb.ResourceType_Function;
                         resourcespb.Name := serviceName s |} ]
                    policy
                else
                  set_Principals
                    (fill_principal s <$> resourcespb.Principals policy)
                    policy in
              (set_policies (<[name := policy]> (policies s)) s, ok)
          end
      | resourcespb.ResourceType_Topic =>
          (set_topics (<[name := resourcespb.GetTopic req]> (topics s)) s,
           ok)
      | _ => (s, ok)
      end
  end.

(** [Proxy].  The request of a unary call is never nil. *)
Definition Proxy (s : ServiceRequirements) (req : httppb.HttpProxyRequest)
  : ServiceRequirements * (httppb.HttpProxyResponse * option error) :=
  let s :=
    if decide (0 < size (routes s)) then
      append_error
        (errorString
           "cannot register HTTP proxy, API routes have already been registered")
        s
    else s in
  let s :=
    match proxy s with
    | Some _ =>
        append_error
          (errorString
             "cannot register HTTP proxy, another proxy has already been registered")
          s
    | None => s
    end in
  (set_proxy (Some req) s, (httppb.Build_HttpProxyResponse, None)).

(** What a streaming handler leaves behind: the aggregate, the messages
    it handed to [Send], and the error it returns. *)
Definition handled : Type :=
  ServiceRequirements * list ServerMessage * option error.

(** The common tail: send the registration response and return what
    [Send] answers. *)
Definition acknowledge {R : Type} (s : ServiceRequirements)
    (stream : ServerStream R) : handled :=
  (s, [ServerMessage_RegistrationResponse],
   Send stream ServerMessage_RegistrationResponse).

(** The duplicate test of [Serve]. *)
Definition same_route (registrationRequest item : apispb.RegistrationRequest)
  : bool :=
  bool_decide
    (0 < length (lo.Intersect (apispb.Methods item)
                              (apispb.Methods registrationRequest)))
  && bool_decide (apispb.Path item = apispb.Path registrationRequest).

Definition Serve (s : ServiceRequirements)
    (stream : ServerStream apispb.RegistrationRequest) : handled :=
  let '(msg, err) := Recv stream in
  match err with
  | Some err => (s, [], Some err)
  | None =>
      match GetRegistrationRequest msg with
      | None =>
          (s, [],
           Some (errorString "first message must be a registration request"))
      | Some registrationRequest =>
          let api := apispb.Api registrationRequest in
          let existing := default [] (routes s !! api) in
          let s :=
            match lo.Find existing (same_route registrationRequest) with
            | Some existingRoute =>
                append_error
                  (errorString
                     ("route already registered: "
                      +:+ apispb.Api existingRoute +:+ " "
                      +:+ apispb.Path existingRoute))
                  s
            | None =>
                set_routes
                  (<[api := existing ++ [registrationRequest]]> (routes s)) s
            end in
          acknowledge s stream
      end
  end.

Definition Schedule (s : ServiceRequirements)
    (stream : ServerStream schedulespb.RegistrationRequest) : handled :=
  let '(msg, err) := Recv stream in
  match err with
  | Some err => (s, [], Some err)
  | None =>
      match GetRegistrationRequest msg with
      | None =>
          (s, [],
           Some (errorString "first message must be a registration request"))
      | Some registrationRequest =>
          let name := schedulespb.ScheduleName registrationRequest in
          let s :=
            match schedules s !! name with
            | Some _ =>
                append_error
                  (errorString ("schedule already registered: " +:+ name)) s
            | None => s
            end in
          let s :=
            set_schedules (<[name := registrationRequest]> (schedules s)) s in
          acknowledge s stream
      end
  end.

Definition Subscribe (s : ServiceRequirements)
    (stream : ServerStream topicspb.RegistrationRequest) : handled :=
  let '(msg, err) := Recv stream in
  match err with
  | Some err => (s, [], Some err)
  | None =>
      match GetRegistrationRequest msg with
      | None =>
          (s, [],
           Some (errorString "first message must be a registration request"))
      | Some registrationRequest =>
          let topic := topicspb.TopicName registrationRequest in
          let existing := default [] (subscriptions s !! topic) in
          let s :=
            set_subscriptions
              (<[topic := existing ++ [registrationRequest]]>
                 (subscriptions s)) s in
          acknowledge s stream
      end
  end.

Definition Listen (s : ServiceRequirements)
    (stream : ServerStream storagepb.RegistrationRequest) : handled :=
  let '(msg, err) := Recv stream in
  match err with
  | Some err => (s, [], Some err)
  | None =>
      match GetRegistrationRequest msg with
      | None => (s, [], Some (errorString "first "))
      | Some registrationRequest =>
          let name := storagepb.BucketName registrationRequest in
          let s :=
            match buckets s !! name with
            | Some _ =>
                append_error
                  (errorString ("bucket already registered: " +:+ name)) s
            | None =>
                set_listeners
                  (<[name := registrationRequest]> (listeners s)) s
            end in
          acknowledge s stream
      end
  end.

(** The duplicate test of [HandleEvents]. *)
Definition same_event (registrationRequest item
    : websocketspb.RegistrationRequest) : bool :=
  bool_decide (websocketspb.EventType item
               = websocketspb.EventType registrationRequest).

Definition HandleEvents (s : ServiceRequirements)
    (stream : ServerStream websocketspb.RegistrationRequest) : handled :=
  let '(msg, err) := Recv stream in
  match err with
  | Some err => (s, [], Some err)
  | None =>
      match GetRegistrationRequest msg with
      | None =>
          (s, [],
           Some (errorString "first message must be a registration request"))
      | Some registrationRequest =>
          let socket := websocketspb.SocketName registrationRequest in
          let existing := default [] (websockets s !! socket) in
          let s :=
            match lo.Find existing (same_event registrationRequest) with
            | Some existingSocketHandler =>
                append_error
                  (errorString
                     ("websocket handler already registered: "
                      +:+ websocketspb.SocketName existingSocketHandler
                      +:+ " "
                      +:+ websocketspb.WebsocketEventType_String
                            (websocketspb.EventType existingSocketHandler)))
                  s
            | None =>
                set_websockets
                  (<[socket := existing ++ [registrationRequest]]>
                     (websockets s)) s
            end in
          acknowledge s stream
      end
  end.

(** The aggregates a run can hold: the one the constructor builds, and
    whatever the handlers turn it into.  The fields are unexported and
    nothing else in the package writes them. *)
Inductive reachable : ServiceRequirements → Prop :=
  | reachable_new serviceName serviceType :
      reachable (NewServiceRequirements serviceName serviceType)
  | reachable_Declare s req :
      reachable s → reachable (Declare_ s req).1
  | reachable_Proxy s req :
      reachable s → reachable (Proxy s req).1
  | reachable_Serve s stream :
      reachable s → reachable (Serve s stream).1.1
  | reachable_Schedule s stream :
      reachable s → reachable (Schedule s stream).1.1
  | reachable_Subscribe s stream :
      reachable s → reachable (Subscribe s stream).1.1
  | reachable_Listen s stream :
      reachable s → reachable (Listen s stream).1.1
  | reachable_HandleEvents s stream :
      reachable s → reachable (HandleEvents s stream).1.1.

End collector.


(** ** package provider *)
Module provider.

Local Open Scope Z_scope.

(** *** os.FileMode (a uint32) *)
Definition FileMode : Type := Z.

Definition ModeDir : FileMode := Z.shiftl 1 31.
Definition ModeSymlink : FileMode := Z.shiftl 1 27.
Definition ModeDevice : FileMode := Z.shiftl 1 26.
Definition ModeNamedPipe : FileMode := Z.shiftl 1 25.
Definition ModeSocket : FileMode := Z.shiftl 1 24.
Definition ModeCharDevice : FileMode := Z.shiftl 1 21.
Definition ModeIrregular : FileMode := Z.shiftl 1 19.

Definition ModeType : FileMode :=
  Z.lor ModeDir (Z.lor ModeSymlink (Z.lor ModeNamedPipe (Z.lor ModeSocket
    (Z.lor ModeDevice (Z.lor ModeCharDevice ModeIrregular))))).

(** [0o777] *)
Definition ModePerm : FileMode := 7 * 64 + 7 * 8 + 7.

Definition IsRegular (m : FileMode) : bool := Z.land m ModeType =? 0.
Definition Perm (m : FileMode) : FileMode := Z.land m ModePerm.

(** [0o111]: the execute bit of owner, group and others. *)
Definition exec_any : Z := 1 * 64 + 1 * 8 + 1.

(** [isExecAny]; [GOOS] is [runtime.GOOS]. *)
Definition isExecAny (GOOS : string) (mode : FileMode) : bool :=
  if decide (GOOS = "windows") then IsRegular mode
  else IsRegular mode && negb (Z.land (Perm mode) exec_any =? 0).

(** *** What the supervisor sees of its host *)

Record FileInfo : Type := { Mode : FileMode }.

(** [afero.Fs], of which only [Stat] is called. *)
Record Fs : Type := { Stat : string → FileInfo + error }.

Record Process : Type := { Pid : Z }.

Global Instance Process_eq_dec : EqDecision Process.
Proof. solve_decision. Defined.

(** The sink both output streams of the child are given. *)
Inductive Writer : Type := PtermWriter_Debug.

(** [exec.Cmd]: [Env] nil means the parent's environment. *)
Record Cmd : Type := {
  Path : string;
  Env : option (list string);
  Stderr : option Writer;
  Stdout : option Writer;
}.

(** A listener on a TCP address. *)
Record Listener : Type := {
  Addr_String : string;
  Port : Z;
}.

(** The calls that leave the process, each with what it answered. *)
Inductive event : Type :=
  | ev_GetNextListener (answer : Listener + error)
  | ev_Close (lis : Listener) (answer : option error)
  | ev_Start (cmd : Cmd) (answer : Process + error)
  | ev_Kill (proc : Process) (answer : option error).

Definition trace : Type := list event.

(** The host: the platform, the environment, and the answer of every
    outside call, which may depend on all calls made before it.
    [GetNextListener] is [utils.GetNextListener], taken as given. *)
Record Host : Type := {
  GOOS : string;
  Environ : list string;
  GetNextListener : trace → Listener + error;
  Close : trace → Listener → option error;
  Start : trace → Cmd → Process + error;
  Kill : trace → Process → option error;
}.

(** Processes a trace has started. *)
Fixpoint started (t : trace) : list Process :=
  match t with
  | [] => []
  | ev_Start _ (inl proc) :: t => proc :: started t
  | _ :: t => started t
  end.

(** Kill signals a trace has sent. *)
Fixpoint kills (t : trace) : list Process :=
  match t with
  | [] => []
  | ev_Kill proc _ :: t => proc :: kills t
  | _ :: t => kills t
  end.

(** Effects thread the trace; the newest call is at the head. *)
Definition M (A : Type) : Type := trace → A * trace.

Definition ret {A : Type} (a : A) : M A := λ t, (a, t).

Definition bind {A B : Type} (c : M A) (k : A → M B) : M B :=
  λ t, let '(a, t) := c t in k a t.

Notation "x <~ c ;; k" := (bind c (λ x, k))
  (at level 100, c at next level, k at level 200, right associativity).

Definition call_GetNextListener (h : Host) : M (Listener + error) :=
  λ t, let answer := GetNextListener h t in
       (answer, ev_GetNextListener answer :: t).

Definition call_Close (h : Host) (lis : Listener) : M (option error) :=
  λ t, let answer := Close h t lis in (answer, ev_Close lis answer :: t).

Definition call_Start (h : Host) (cmd : Cmd) : M (Process + error) :=
  λ t, let answer := Start h t cmd in (answer, ev_Start cmd answer :: t).

Definition call_Kill (h : Host) (proc : Process) : M (option error) :=
  λ t, let answer := Kill h t proc in (answer, ev_Kill proc answer :: t).

(** *** ProviderProcess *)
Record ProviderProcess : Type := {
  providerPath : string;
  process : option Process;
  envMap : option (gmap string string);
  Address : string;
}.

Definition set_process (v : option Process) (p : ProviderProcess)
  : ProviderProcess :=
  {| providerPath := providerPath p; process := v;
     envMap := envMap p; Address := Address p |}.

Definition set_envMap (v : option (gmap string string))
    (p : ProviderProcess) : ProviderProcess :=
  {| providerPath := providerPath p; process := process p;
     envMap := v; Address := Address p |}.

Definition set_Address (v : string) (p : ProviderProcess)
  : ProviderProcess :=
  {| providerPath := providerPath p; process := process p;
     envMap := envMap p; Address := v |}.

(** [exec.Command(name)] *)
Definition Command (name : string) : Cmd :=
  {| Path := name; Env := None; Stderr := None; Stdout := None |}.

(** [startProcess].  The range over [envMap] visits the entries in the
    order of [map_to_list]. *)
Definition startProcess (h : Host) (p : ProviderProcess)
  : M (ProviderProcess * option error) :=
  let cmd := Command (providerPath p) in
  let p :=
    match envMap p with
    | None => set_envMap (Some ∅) p
    | Some _ => p
    end in
  lis <~ call_GetNextListener h ;;
  match lis with
  | inr err => ret (p, Some err)
  | inl lis =>
      let p := set_Address (Addr_String lis) p in
      let env_map := <["PORT" := pretty (Port lis)]> (default ∅ (envMap p)) in
      let p := set_envMap (Some env_map) p in
      let cmd :=
        if decide (0 < size env_map)%nat then
          let env :=
            Environ h
            ++ ((λ kv : string * string, kv.1 +:+ "=" +:+ kv.2)
                  <$> map_to_list env_map) in
          {| Path := Path cmd; Env := Some env;
             Stderr := Stderr cmd; Stdout := Stdout cmd |}
        else cmd in
      err <~ call_Close h lis ;;
      match err with
      | Some err => ret (p, Some err)
      | None =>
          let cmd :=
            {| Path := Path cmd; Env := Env cmd;
               Stderr := Some PtermWriter_Debug;
               Stdout := Some PtermWriter_Debug |} in
          started <~ call_Start h cmd ;;
          match started with
          | inr err => ret (p, Some err)
          | inl proc => ret (set_process (Some proc) p, None)
          end
      end
  end.

Definition Stop (h : Host) (b : ProviderProcess)
  : M (ProviderProcess * option error) :=
  match process b with
  | Some proc =>
      err <~ call_Kill h proc ;;
      match err with
      | Some err => ret (b, Some (wrapError "failed to stop provider: " err))
      | None => ret (b, None)
      end
  | None => ret (b, None)
  end.

Definition StartProviderExecutable (h : Host) (fs : Fs)
    (executablePath : string)
  : M (option ProviderProcess * option error) :=
  match Stat fs executablePath with
  | inr err => ret (None, Some err)
  | inl fileInfo =>
      if negb (isExecAny (GOOS h) (Mode fileInfo)) then
        ret (None, Some (errorString "provider binary is not executable"))
      else
        let provProc :=
          {| providerPath := executablePath; process := None;
             envMap := Some ∅; Address := EmptyString |} in
        started <~ startProcess h provProc ;;
        match started.2 with
        | Some err => ret (None, Some err)
        | None => ret (Some started.1, None)
        end
  end.

End provider.

(** * Specification-side definitions and sample data *)

Import collector.

(** The specification counts keys that hold at least one entry. *)
Definition count_with_entries {V : Type} (m : gmap string (list V)) : nat :=
  size (filter (λ kv : string * list V, 0 < length kv.2) m).

Definition WorkerCount_spec (s : ServiceRequirements) : nat :=
  count_with_entries (routes s) +
  size (listeners s) +
  size (schedules s) +
  count_with_entries (subscriptions s) +
  count_with_entries (websockets s).

(** No key of a sequence-valued mapping holds an empty sequence. *)
Definition entries_nonempty {V : Type} (m : gmap string (list V)) : Prop :=
  ∀ k l, m !! k = Some l → l ≠ [].

Definition sequences_nonempty (s : ServiceRequirements) : Prop :=
  entries_nonempty (routes s)
  ∧ entries_nonempty (subscriptions s)
  ∧ entries_nonempty (websockets s).

(** Each handler, unfolded along the branches the source takes. *)
Ltac handler_cases stream :=
  unfold Serve, Schedule, Subscribe, Listen, HandleEvents, acknowledge;
  destruct (Recv stream) as [msg [recv_err|]]; simpl;
  [ | destruct (GetRegistrationRequest msg) as [registrationRequest|];
      simpl ].

(** Sample registrations used to exercise the statements below. *)
Definition stream_of {R : Type} (registrationRequest : R) : ServerStream R :=
  {| Recv :=
       (Some (ClientMessage_RegistrationRequest registrationRequest), None);
     Send := λ _, None |}.

Definition sample_route : apispb.RegistrationRequest :=
  {| apispb.Api := "main"; apispb.Path := "/orders";
     apispb.Methods := ["GET"; "POST"]; apispb.Options := "a" |}.

Definition sample_schedule : schedulespb.RegistrationRequest :=
  {| schedulespb.ScheduleName := "nightly";
     schedulespb.Cadence := "every day" |}.

Definition sample_aggregate : ServiceRequirements :=
  (Schedule
     (Serve (NewServiceRequirements "orders" EmptyString)
        (stream_of sample_route)).1.1
     (stream_of sample_schedule)).1.1.

Definition proxy_after_routes : error :=
  errorString
    "cannot register HTTP proxy, API routes have already been registered".

Definition proxy_after_proxy : error :=
  errorString
    "cannot register HTTP proxy, another proxy has already been registered".

(** At least one route is registered under some API. *)
Definition has_route (s : ServiceRequirements) : Prop :=
  ∃ api l route, routes s !! api = Some l ∧ route ∈ l.

Definition first_proxy : httppb.HttpProxyRequest :=
  {| httppb.Host := "127.0.0.1:3000" |}.

Definition second_proxy : httppb.HttpProxyRequest :=
  {| httppb.Host := "127.0.0.1:4000" |}.

(** An aggregate holding one route and no proxy. *)
Definition aggregate_with_route : ServiceRequirements :=
  (Serve (NewServiceRequirements "orders" EmptyString)
     (stream_of sample_route)).1.1.

(** An aggregate holding a proxy and no route. *)
Definition aggregate_with_proxy : ServiceRequirements :=
  (Proxy (NewServiceRequirements "orders" EmptyString) first_proxy).1.

Definition sample_listener : storagepb.RegistrationRequest :=
  {| storagepb.BucketName := "images"; storagepb.BlobEventType := 0%Z;
     storagepb.KeyPrefixFilter := "raw/" |}.

Definition other_listener : storagepb.RegistrationRequest :=
  {| storagepb.BucketName := "images"; storagepb.BlobEventType := 1%Z;
     storagepb.KeyPrefixFilter := "thumbs/" |}.

Definition declare_images : resourcespb.ResourceDeclareRequest :=
  {| resourcespb.Resource_ :=
       Some {| resourcespb.Type_ := resourcespb.ResourceType_Bucket;
               resourcespb.Name := "images" |};
     resourcespb.config :=
       resourcespb.Config_Bucket {| resourcespb.bucket_body := "b" |} |}.

(** The bucket [images] is declared; nothing listens on it. *)
Definition aggregate_with_bucket : ServiceRequirements :=
  (Declare_ (NewServiceRequirements "orders" EmptyString) declare_images).1.

(** A listener is registered on [images]; the bucket is not declared. *)
Definition aggregate_with_listener : ServiceRequirements :=
  (Listen (NewServiceRequirements "orders" EmptyString)
     (stream_of sample_listener)).1.1.

Definition later_schedule : schedulespb.RegistrationRequest :=
  {| schedulespb.ScheduleName := "nightly";
     schedulespb.Cadence := "every hour" |}.

(** Two method sets overlap. *)
Definition overlapping (methods1 methods2 : list string) : Prop :=
  ∃ method, method ∈ methods1 ∧ method ∈ methods2.

Definition route_conflict (existingRoute : apispb.RegistrationRequest)
  : error :=
  errorString
    ("route already registered: " +:+ apispb.Api existingRoute +:+ " "
     +:+ apispb.Path existingRoute).

(** The routes stored under the API of a registration. *)
Definition routes_of (s : ServiceRequirements) (api : string)
  : list apispb.RegistrationRequest :=
  default [] (routes s !! api).

(** A stored route that the duplicate test of [Serve] matches. *)
Definition conflicts_with (second first : apispb.RegistrationRequest) : Prop :=
  overlapping (apispb.Methods first) (apispb.Methods second)
  ∧ apispb.Path first = apispb.Path second.


Import resourcespb.

(** The answer of a successful [Declare]: the empty response, no error. *)
Definition declared_ok : outcome (ResourceDeclareResponse * option error) :=
  Returned (Build_ResourceDeclareResponse, None).







(** The principal [Declare] synthesizes: the declaring service. *)
Definition service_principal (s : ServiceRequirements) : Resource :=
  {| Type_ := ResourceType_Function; Name := serviceName s |}.

(** A principal the loop back-fills. *)
Definition unnamed_service (principal : Resource) : Prop :=
  Name principal = EmptyString ∧ Type_ principal = ResourceType_Function.

Definition unnamed_policy : PolicyResource :=
  {| Principals :=
       [ {| Type_ := ResourceType_Function; Name := EmptyString |};
         {| Type_ := ResourceType_Function; Name := "billing" |} ];
     Actions := [300%Z; 301%Z];
     Resources := [ {| Type_ := ResourceType_Bucket; Name := "images" |} ] |}.

Definition declare_policy (policy : PolicyResource) : ResourceDeclareRequest :=
  {| Resource_ := Some {| Type_ := ResourceType_Policy; Name := "reader" |};
     config := Config_Policy policy |}.

(** The security definition stored for an API under a name. *)
Definition lookup_security (s : ServiceRequirements) (api name : string)
  : option (option ApiSecurityDefinitionResource) :=
  apiSecurityDefinition s !! api ≫= λ defs, defs !! name.

(** The fields no case of [Declare] assigns. *)
Definition same_registrations (s s' : ServiceRequirements) : Prop :=
  serviceName s' = serviceName s
  ∧ serviceType s' = serviceType s
  ∧ routes s' = routes s
  ∧ schedules s' = schedules s
  ∧ subscriptions s' = subscriptions s
  ∧ websockets s' = websockets s
  ∧ listeners s' = listeners s
  ∧ proxy s' = proxy s
  ∧ errors s' = errors s.

Import provider.



(** A file system holding a data file ([0o644]) and a program ([0o755]). *)
Definition sample_fs : Fs :=
  {| Stat := λ name,
       if decide (name = "/opt/provider.txt") then inl {| Mode := 420%Z |}
       else if decide (name = "/opt/provider") then inl {| Mode := 493%Z |}
       else inr (errorString "file does not exist") |}.

Definition stop_failed (err : error) : error :=
  wrapError "failed to stop provider: " err.

(** A host on which a process can be killed once: a further kill of the
    same process is answered with an error. *)
Definition kill_once_host : Host :=
  {| GOOS := "windows";
     Environ := [];
     GetNextListener :=
       λ _, inl {| Addr_String := "127.0.0.1:40123"; Port := 40123%Z |};
     Close := λ _ _, None;
     Start := λ _ _, inl {| Pid := 4242%Z |};
     Kill := λ t proc,
       if decide (proc ∈ kills t)
       then Some (errorString "os: process already finished")
       else None |}.

Definition running_provider : ProviderProcess :=
  {| providerPath := "/opt/provider";
     process := Some {| Pid := 4242%Z |};
     envMap := Some (<["PORT" := "40123"]> ∅);
     Address := "127.0.0.1:40123" |}.

(** ** Runs of the collector *)

(** One call of a handler. *)
Inductive step : ServiceRequirements → ServiceRequirements → Prop :=
  | step_Declare s req : step s (Declare_ s req).1
  | step_Proxy s req : step s (Proxy s req).1
  | step_Serve s stream : step s (Serve s stream).1.1
  | step_Schedule s stream : step s (Schedule s stream).1.1
  | step_Subscribe s stream : step s (Subscribe s stream).1.1
  | step_Listen s stream : step s (Listen s stream).1.1
  | step_HandleEvents s stream : step s (HandleEvents s stream).1.1.

(** A stream whose first message is the given registration. *)
Definition registering {R : Type} (send : ServerMessage → option error)
    (registrationRequest : R) : ServerStream R :=
  {| Recv :=
       (Some (ClientMessage_RegistrationRequest registrationRequest), None);
     Send := send |}.

(** The same stream with another answer to [Send]. *)
Definition with_Send {R : Type} (send : ServerMessage → option error)
    (stream : ServerStream R) : ServerStream R :=
  {| Recv := Recv stream; Send := send |}.

(** Registrations handled one after the other. *)
Definition Subscribe_each (send : ServerMessage → option error)
    (s : ServiceRequirements) (regs : list topicspb.RegistrationRequest)
  : ServiceRequirements :=
  foldl (λ s r, (Subscribe s (registering send r)).1.1) s regs.

Definition Schedule_each (send : ServerMessage → option error)
    (s : ServiceRequirements) (regs : list schedulespb.RegistrationRequest)
  : ServiceRequirements :=
  foldl (λ s r, (Schedule s (registering send r)).1.1) s regs.

(** A handler refuses a stream that does not start with a registration:
    it returns the receive error, or its complaint, and does nothing
    else. *)
Definition refuses_bad_start {R : Type}
    (handler : ServiceRequirements → ServerStream R → handled)
    (complaint : string) : Prop :=
  ∀ s stream,
    (∀ msg err, Recv stream = (msg, Some err) →
       handler s stream = (s, [], Some err))
    ∧ (∀ msg, Recv stream = (msg, None) →
         GetRegistrationRequest msg = None →
         handler s stream = (s, [], Some (errorString complaint))).

(** A handler answers a registration with exactly one registration
    response, returns what [Send] answers, and records the same thing
    whatever that answer is. *)
Definition acknowledges_once {R : Type}
    (handler : ServiceRequirements → ServerStream R → handled) : Prop :=
  ∀ s stream registrationRequest,
    Recv stream
    = (Some (ClientMessage_RegistrationRequest registrationRequest), None) →
    (handler s stream).1.2 = [ServerMessage_RegistrationResponse]
    ∧ (handler s stream).2 = Send stream ServerMessage_RegistrationResponse
    ∧ ∀ send, (handler s (with_Send send stream)).1.1 = (handler s stream).1.1.

(** Every registration is stored under the key it names. *)
Definition stored_under_own_key (s : ServiceRequirements) : Prop :=
  (∀ api l r, routes s !! api = Some l → r ∈ l → apispb.Api r = api)
  ∧ (∀ name r, schedules s !! name = Some r →
       schedulespb.ScheduleName r = name)
  ∧ (∀ topic l r, subscriptions s !! topic = Some l → r ∈ l →
       topicspb.TopicName r = topic)
  ∧ (∀ socket l r, websockets s !! socket = Some l → r ∈ l →
       websocketspb.SocketName r = socket)
  ∧ (∀ bucket r, listeners s !! bucket = Some r →
       storagepb.BucketName r = bucket).



(** A sequence-valued mapping only grows: every key stays, and what it
    held is the beginning of what it holds. *)
Definition sequences_extended {V : Type} (m m' : gmap string (list V))
  : Prop :=
  ∀ k l, m !! k = Some l → ∃ l', m' !! k = Some l' ∧ l `prefix_of` l'.

(** Nothing recorded is lost between two aggregates. *)
Definition nothing_lost (s s' : ServiceRequirements) : Prop :=
  errors s `prefix_of` errors s'
  ∧ sequences_extended (routes s) (routes s')
  ∧ sequences_extended (subscriptions s) (subscriptions s')
  ∧ sequences_extended (websockets s) (websockets s')
  ∧ dom (schedules s) ⊆ dom (schedules s')
  ∧ dom (listeners s) ⊆ dom (listeners s')
  ∧ dom (buckets s) ⊆ dom (buckets s')
  ∧ dom (collections s) ⊆ dom (collections s')
  ∧ dom (apis s) ⊆ dom (apis s')
  ∧ dom (topics s) ⊆ dom (topics s')
  ∧ dom (secrets s) ⊆ dom (secrets s')
  ∧ dom (policies s) ⊆ dom (policies s')
  ∧ dom (apiSecurityDefinition s) ⊆ dom (apiSecurityDefinition s').


Definition websocket_conflict
    (existing : websocketspb.RegistrationRequest) : error :=
  errorString
    ("websocket handler already registered: "
     +:+ websocketspb.SocketName existing +:+ " "
     +:+ websocketspb.WebsocketEventType_String
           (websocketspb.EventType existing)).

(** The handlers stored under a socket. *)
Definition handlers_of (s : ServiceRequirements) (socket : string)
  : list websocketspb.RegistrationRequest :=
  default [] (websockets s !! socket).

(** The subscriptions stored under a topic. *)
Definition subscriptions_of (s : ServiceRequirements) (topic : string)
  : list topicspb.RegistrationRequest :=
  default [] (subscriptions s !! topic).

(** The owner, group or others may execute: bit 6, 3 or 0 of the mode. *)
Definition some_exec_bit (mode : FileMode) : Prop :=
  Z.testbit mode 0 = true ∨ Z.testbit mode 3 = true
  ∨ Z.testbit mode 6 = true.

(** A host on which the provider starts. *)
Definition working_host : Host :=
  {| GOOS := "linux";
     Environ := ["HOME=/root"];
     GetNextListener :=
       λ _, inl {| Addr_String := "127.0.0.1:40123"; Port := 40123%Z |};
     Close := λ _ _, None;
     Start := λ _ _, inl {| Pid := 4242%Z |};
     Kill := λ _ _, None |}.

Definition sample_topic : topicspb.RegistrationRequest :=
  {| topicspb.TopicName := "orders" |}.

Definition connect_handler : websocketspb.RegistrationRequest :=
  {| websocketspb.SocketName := "chat";
     websocketspb.EventType := websocketspb.Connect |}.

Definition declare_security (name : string) : ResourceDeclareRequest :=
  {| Resource_ :=
       Some {| Type_ := ResourceType_ApiSecurityDefinition; Name := name |};
     config :=
       Config_ApiSecurityDefinition
         {| ApiName := "main"; definition := name |} |}.

(** A stream that starts with something else than a registration. *)
Definition data_first {R : Type} : ServerStream R :=
  {| Recv := (Some (ClientMessage_Other "payload"), None);
     Send := λ _, None |}.

(** An answer of [Send] on a connection that went away. *)
Definition send_fails : ServerMessage → option error :=
  λ _, Some (errorString "transport is closing").

(** * Properties of the collector *)

(** ** The worker count *)

Lemma length_Values {V : Type} (m : gmap string V) :
  length (lo.Values m) = size m.
Proof. unfold lo.Values. by rewrite length_fmap, length_map_to_list. Qed.

Lemma entries_nonempty_empty {V : Type} :
  entries_nonempty (∅ : gmap string (list V)).
Proof. intros k l Hk. by rewrite lookup_empty in Hk. Qed.

Lemma entries_nonempty_append {V : Type} (m : gmap string (list V)) k l x :
  entries_nonempty m → entries_nonempty (<[k := l ++ [x]]> m).
Proof.
  intros Hm k' l' Hk'. destruct (decide (k = k')) as [->|Hne].
  - rewrite lookup_insert_eq in Hk'. injection Hk' as <-.
    intros Happ. by apply app_eq_nil in Happ as [_ ?].
  - rewrite lookup_insert_ne in Hk' by done. by eapply Hm.
Qed.

Lemma count_with_entries_all {V : Type} (m : gmap string (list V)) :
  entries_nonempty m → count_with_entries m = size m.
Proof.
  intros Hm. unfold count_with_entries. f_equal.
  apply map_filter_id. intros k l Hk. simpl.
  specialize (Hm k l Hk). destruct l; [done | simpl; lia].
Qed.

Lemma Declare_sequences s req :
  routes (Declare_ s req).1 = routes s
  ∧ subscriptions (Declare_ s req).1 = subscriptions s
  ∧ websockets (Declare_ s req).1 = websockets s.
Proof.
  unfold Declare_. destruct (resourcespb.Resource_ req) as [resource|]; [|done].
  destruct (resourcespb.Type_ resource); try done.
  by destruct (resourcespb.GetPolicy req).
Qed.

Lemma reachable_sequences_nonempty s :
  reachable s → sequences_nonempty s.
Proof.
  unfold sequences_nonempty.
  induction 1 as [name type | s req _ IH | s req _ IH | s stream _ IH
                 | s stream _ IH | s stream _ IH | s stream _ IH
                 | s stream _ IH].
  - simpl. repeat split; apply entries_nonempty_empty.
  - destruct (Declare_sequences s req) as (-> & -> & ->). exact IH.
  - unfold Proxy. simpl.
    destruct (decide (0 < size (routes s))); simpl;
      destruct (proxy s); simpl; exact IH.
  - destruct IH as (Hr & Hs & Hw). handler_cases stream; try done.
    destruct (lo.Find _ _); simpl; [done|].
    split; [|done]. by apply entries_nonempty_append.
  - destruct IH as (Hr & Hs & Hw). handler_cases stream; try done.
    by destruct (schedules s !! _).
  - destruct IH as (Hr & Hs & Hw). handler_cases stream; try done.
    split; [done|]. split; [|done]. by apply entries_nonempty_append.
  - destruct IH as (Hr & Hs & Hw). handler_cases stream; try done.
    by destruct (buckets s !! _).
  - destruct IH as (Hr & Hs & Hw). handler_cases stream; try done.
    destruct (lo.Find _ _); simpl; [done|].
    split; [done|]. split; [done|]. by apply entries_nonempty_append.
Qed.

Lemma WorkerCount_keys s :
  WorkerCount s
  = size (routes s) + size (listeners s) + size (schedules s)
    + size (subscriptions s) + size (websockets s).
Proof. unfold WorkerCount. by rewrite !length_Values. Qed.

Lemma sample_aggregate_reachable : reachable sample_aggregate.
Proof.
  unfold sample_aggregate.
  apply reachable_Schedule, reachable_Serve, reachable_new.
Qed.

(** C5.  On every aggregate a run can hold, [WorkerCount] is the number of
    APIs with at least one route, plus the number of storage listeners,
    plus the number of schedules, plus the number of topics with at least
    one subscription, plus the number of sockets with at least one
    websocket handler.  It is a function of the aggregate it is called on:
    once a schedule is registered under a fresh name, the next call counts
    one more. *)
Theorem WorkerCount_counts_current_state (s : ServiceRequirements) :
  reachable s →
  WorkerCount s = WorkerCount_spec s
  ∧ ∀ stream registrationRequest,
      Recv stream
      = (Some (ClientMessage_RegistrationRequest registrationRequest), None) →
      schedules s !! schedulespb.ScheduleName registrationRequest = None →
      WorkerCount (Schedule s stream).1.1 = S (WorkerCount s).
Proof.
  intros Hs. split.
  - destruct (reachable_sequences_nonempty s Hs) as (Hr & Hsub & Hw).
    rewrite WorkerCount_keys. unfold WorkerCount_spec.
    by rewrite !count_with_entries_all.
  - intros stream registrationRequest Hrecv Hfresh.
    rewrite !WorkerCount_keys. unfold Schedule, acknowledge.
    rewrite Hrecv. simpl. rewrite Hfresh. simpl.
    rewrite map_size_insert_None by done. lia.
Qed.

Lemma WorkerCount_counts_current_state_witness :
  reachable sample_aggregate
  ∧ WorkerCount sample_aggregate = WorkerCount_spec sample_aggregate.
Proof.
  split; [exact sample_aggregate_reachable|].
  exact (proj1 (WorkerCount_counts_current_state sample_aggregate
                  sample_aggregate_reachable)).
Defined.

Example WorkerCount_sample : WorkerCount sample_aggregate = 2.
Proof. vm_compute. reflexivity. Qed.

(** ** The HTTP proxy *)

Lemma has_route_size s : has_route s → 0 < size (routes s).
Proof.
  intros (api & l & route & Hl & _).
  assert (size (routes s) ≠ 0); [|lia].
  apply map_size_non_empty_iff. intros Hempty.
  by rewrite Hempty, lookup_empty in Hl.
Qed.

Lemma aggregate_with_route_has_route : has_route aggregate_with_route.
Proof.
  exists "main", [sample_route], sample_route. split.
  - vm_compute. reflexivity.
  - apply list_elem_of_singleton. reflexivity.
Qed.

(** C1, as stated, fails: after a route is registered [Proxy] does set the
    proxy field, and a second [Proxy] replaces the first request. *)
Lemma Proxy_keeps_field_counterexample :
  ¬ (∀ s req, has_route s → proxy s = None → proxy (Proxy s req).1 = None)
  ∧ ¬ (∀ s req original,
         proxy s = Some original → proxy (Proxy s req).1 = Some original).
Proof.
  split.
  - intros Hclaim.
    specialize (Hclaim aggregate_with_route first_proxy
                  aggregate_with_route_has_route eq_refl).
    vm_compute in Hclaim. discriminate Hclaim.
  - intros Hclaim.
    specialize (Hclaim aggregate_with_proxy second_proxy first_proxy eq_refl).
    vm_compute in Hclaim. discriminate Hclaim.
Qed.

(** C1, amended.  When at least one API holds a route, or a proxy is
    already registered, [Proxy] returns the empty response and no RPC
    error, appends one conflict error for the routes (if any API is in the
    route table) followed by one for the earlier proxy (if there is one),
    and stores the new request in the proxy field in every case; the route
    table is not touched. *)
Theorem Proxy_conflict_recorded_request_stored
    (s : ServiceRequirements) (req : httppb.HttpProxyRequest) :
  has_route s ∨ is_Some (proxy s) →
  (Proxy s req).2 = (httppb.Build_HttpProxyResponse, None)
  ∧ proxy (Proxy s req).1 = Some req
  ∧ errors (Proxy s req).1
    = errors s
      ++ (if decide (0 < size (routes s)) then [proxy_after_routes] else [])
      ++ (match proxy s with Some _ => [proxy_after_proxy] | None => [] end)
  ∧ length (errors s) < length (errors (Proxy s req).1)
  ∧ (has_route s → proxy_after_routes ∈ errors (Proxy s req).1)
  ∧ (is_Some (proxy s) → proxy_after_proxy ∈ errors (Proxy s req).1)
  ∧ routes (Proxy s req).1 = routes s.
Proof.
  intros Hconflict.
  assert (Herrors : errors (Proxy s req).1
    = errors s
      ++ (if decide (0 < size (routes s)) then [proxy_after_routes] else [])
      ++ (match proxy s with Some _ => [proxy_after_proxy] | None => [] end)).
  { unfold Proxy, proxy_after_routes, proxy_after_proxy.
    destruct (decide (0 < size (routes s))); simpl;
      destruct (proxy s); simpl; by rewrite <- ?app_assoc, ?app_nil_r. }
  split; [done|]. split; [done|]. split; [exact Herrors|].
  rewrite Herrors. repeat split.
  - rewrite !length_app.
    destruct Hconflict as [Hroute%has_route_size | [original Hproxy]].
    + rewrite decide_True by done. simpl. lia.
    + rewrite Hproxy. simpl. lia.
  - intros Hroute%has_route_size. rewrite decide_True by done.
    apply elem_of_app. right. apply elem_of_app. left.
    by apply list_elem_of_singleton.
  - intros [original Hproxy]. rewrite Hproxy.
    apply elem_of_app. right. apply elem_of_app. right.
    by apply list_elem_of_singleton.
  - unfold Proxy. simpl.
    destruct (decide (0 < size (routes s))); simpl; by destruct (proxy s).
Qed.

Lemma Proxy_conflict_recorded_request_stored_witness :
  has_route aggregate_with_route
  ∧ proxy (Proxy aggregate_with_route first_proxy).1 = Some first_proxy
  ∧ errors (Proxy aggregate_with_route first_proxy).1 = [proxy_after_routes].
Proof.
  pose proof (Proxy_conflict_recorded_request_stored aggregate_with_route
                first_proxy (or_introl aggregate_with_route_has_route))
    as (_ & Hproxy & Herrors & _).
  split; [exact aggregate_with_route_has_route|].
  split; [exact Hproxy|].
  rewrite Herrors. vm_compute. reflexivity.
Defined.

(** ** Storage listeners *)

(** The duplicate test of [Listen] reads [buckets], whatever [listeners]
    holds. *)
Lemma Listen_duplicate_test s stream registrationRequest :
  Recv stream
  = (Some (ClientMessage_RegistrationRequest registrationRequest), None) →
  let name := storagepb.BucketName registrationRequest in
  (is_Some (buckets s !! name) →
     listeners (Listen s stream).1.1 = listeners s
     ∧ errors (Listen s stream).1.1
       = errors s ++ [errorString ("bucket already registered: " +:+ name)])
  ∧ (buckets s !! name = None →
     listeners (Listen s stream).1.1
     = <[name := registrationRequest]> (listeners s)
     ∧ errors (Listen s stream).1.1 = errors s).
Proof.
  intros Hrecv name. unfold Listen, acknowledge. rewrite Hrecv. simpl.
  fold name. split.
  - intros [bucket ->]. done.
  - intros ->. done.
Qed.

(** C2.  The code departs from the claim on both sides.  With the bucket
    declared and no listener on it, a first listener registration is
    refused: a conflict error is appended and no listener is stored.  With
    a listener already stored under the name and the bucket not declared,
    a second registration is accepted: no error is appended and the stored
    listener is replaced. *)
Theorem Listen_tests_buckets_not_listeners :
  (listeners aggregate_with_bucket !! "images" = None
   ∧ listeners (Listen aggregate_with_bucket (stream_of sample_listener)).1.1
     = ∅
   ∧ errors (Listen aggregate_with_bucket (stream_of sample_listener)).1.1
     = [errorString "bucket already registered: images"])
  ∧ (listeners aggregate_with_listener !! "images" = Some sample_listener
     ∧ listeners
         (Listen aggregate_with_listener (stream_of other_listener)).1.1
       !! "images" = Some other_listener
     ∧ errors (Listen aggregate_with_listener (stream_of other_listener)).1.1
       = []).
Proof. vm_compute. repeat split. Qed.

(** ** Schedules *)

Lemma Schedule_registers s stream registrationRequest :
  Recv stream
  = (Some (ClientMessage_RegistrationRequest registrationRequest), None) →
  let name := schedulespb.ScheduleName registrationRequest in
  Schedule s stream
  = (set_schedules (<[name := registrationRequest]> (schedules s))
       (match schedules s !! name with
        | Some _ =>
            append_error
              (errorString ("schedule already registered: " +:+ name)) s
        | None => s
        end),
     [ServerMessage_RegistrationResponse],
     Send stream ServerMessage_RegistrationResponse).
Proof.
  intros Hrecv name. unfold Schedule, acknowledge. rewrite Hrecv. simpl.
  fold name. by destruct (schedules s !! name).
Qed.

(** C3.  Take two schedule registrations under one name.  Whatever the
    aggregate, the first is stored under that name; and on every aggregate
    that holds the first under that name, the second appends exactly one
    conflict error, replaces the stored registration (the mapping keeps
    its size), and the registration response is still sent, the handler
    returning what [Send] answers. *)
Theorem Schedule_duplicate_conflicts_and_overwrites
    (stream1 stream2 : ServerStream schedulespb.RegistrationRequest)
    (first second : schedulespb.RegistrationRequest) :
  Recv stream1 = (Some (ClientMessage_RegistrationRequest first), None) →
  Recv stream2 = (Some (ClientMessage_RegistrationRequest second), None) →
  schedulespb.ScheduleName first = schedulespb.ScheduleName second →
  let name := schedulespb.ScheduleName second in
  (∀ s, schedules (Schedule s stream1).1.1 !! name = Some first)
  ∧ ∀ s, schedules s !! name = Some first →
      errors (Schedule s stream2).1.1
      = errors s ++ [errorString ("schedule already registered: " +:+ name)]
      ∧ schedules (Schedule s stream2).1.1 = <[name := second]> (schedules s)
      ∧ schedules (Schedule s stream2).1.1 !! name = Some second
      ∧ size (schedules (Schedule s stream2).1.1) = size (schedules s)
      ∧ (Schedule s stream2).1.2 = [ServerMessage_RegistrationResponse]
      ∧ (Schedule s stream2).2
        = Send stream2 ServerMessage_RegistrationResponse.
Proof.
  intros Hrecv1 Hrecv2 Hname name. split.
  - intros s. rewrite (Schedule_registers s stream1 first Hrecv1). simpl.
    rewrite Hname. apply lookup_insert_eq.
  - intros s Hfirst. rewrite (Schedule_registers s stream2 second Hrecv2).
    fold name. rewrite Hfirst. simpl. repeat split.
    + apply lookup_insert_eq.
    + apply map_size_insert_Some. by exists first.
Qed.

Lemma Schedule_duplicate_conflicts_and_overwrites_witness :
  let s := (Schedule (NewServiceRequirements "orders" EmptyString)
              (stream_of sample_schedule)).1.1 in
  schedules s !! "nightly" = Some sample_schedule
  ∧ errors (Schedule s (stream_of later_schedule)).1.1
    = [errorString "schedule already registered: nightly"]
  ∧ schedules (Schedule s (stream_of later_schedule)).1.1 !! "nightly"
    = Some later_schedule.
Proof.
  intros s.
  pose proof (Schedule_duplicate_conflicts_and_overwrites
                (stream_of sample_schedule) (stream_of later_schedule)
                sample_schedule later_schedule eq_refl eq_refl eq_refl)
    as [Hfirst Hsecond].
  pose proof (Hfirst (NewServiceRequirements "orders" EmptyString)) as Hs.
  destruct (Hsecond s Hs) as (Herrors & _ & Hstored & _).
  split; [exact Hs|]. split; [|exact Hstored].
  rewrite Herrors. vm_compute. reflexivity.
Defined.

(** ** API routes *)

Lemma Intersect_nonempty (list1 list2 : list string) :
  0 < length (lo.Intersect list1 list2) ↔ overlapping list1 list2.
Proof.
  unfold lo.Intersect, overlapping. split.
  - intros Hlen. destruct (filter _ list2) as [|method rest] eqn:Hfilter.
    + simpl in Hlen. lia.
    + assert (Hin : method ∈ filter (λ elem, elem ∈ list1) list2).
      { rewrite Hfilter. apply list_elem_of_here. }
      apply list_elem_of_filter in Hin as [? ?]. by exists method.
  - intros (method & H1 & H2).
    assert (Hin : method ∈ filter (λ elem, elem ∈ list1) list2).
    { by apply list_elem_of_filter. }
    destruct (filter _ list2); [by apply elem_of_nil in Hin | simpl; lia].
Qed.

Lemma same_route_true registrationRequest item :
  same_route registrationRequest item = true
  ↔ overlapping (apispb.Methods item) (apispb.Methods registrationRequest)
    ∧ apispb.Path item = apispb.Path registrationRequest.
Proof.
  unfold same_route.
  rewrite andb_true_iff, !bool_decide_eq_true, Intersect_nonempty. done.
Qed.

Lemma Find_Some {T : Type} (collection : list T) predicate item :
  lo.Find collection predicate = Some item →
  item ∈ collection ∧ predicate item = true.
Proof.
  induction collection as [|head rest IH]; simpl; [done|].
  destruct (predicate head) eqn:Hhead.
  - intros [= <-]. split; [apply list_elem_of_here | done].
  - intros Hrest. destruct (IH Hrest) as [? ?].
    split; [by apply list_elem_of_further | done].
Qed.

Lemma Find_None {T : Type} (collection : list T) predicate :
  lo.Find collection predicate = None
  ↔ ∀ item, item ∈ collection → predicate item = false.
Proof.
  induction collection as [|head rest IH]; simpl.
  - split; [|done]. intros _ item Hin. by apply elem_of_nil in Hin.
  - destruct (predicate head) eqn:Hhead.
    + split; [done|]. intros Hall.
      specialize (Hall head (list_elem_of_here _ _)). congruence.
    + rewrite IH. split.
      * intros Hall item [->|Hin]%elem_of_cons; [done | by apply Hall].
      * intros Hall item Hin. apply Hall. by apply list_elem_of_further.
Qed.

Lemma Serve_registers s stream registrationRequest :
  Recv stream
  = (Some (ClientMessage_RegistrationRequest registrationRequest), None) →
  let api := apispb.Api registrationRequest in
  Serve s stream
  = (match lo.Find (routes_of s api) (same_route registrationRequest) with
     | Some existingRoute => append_error (route_conflict existingRoute) s
     | None =>
         set_routes
           (<[api := routes_of s api ++ [registrationRequest]]> (routes s)) s
     end,
     [ServerMessage_RegistrationResponse],
     Send stream ServerMessage_RegistrationResponse).
Proof.
  intros Hrecv api. unfold Serve, acknowledge. rewrite Hrecv. simpl.
  fold api. done.
Qed.


Lemma Serve_accepts s stream second :
  Recv stream = (Some (ClientMessage_RegistrationRequest second), None) →
  (∀ first, first ∈ routes_of s (apispb.Api second) →
            ¬ conflicts_with second first) →
  routes (Serve s stream).1.1
  = <[apispb.Api second := routes_of s (apispb.Api second) ++ [second]]>
      (routes s)
  ∧ errors (Serve s stream).1.1 = errors s.
Proof.
  intros Hrecv Hnone. rewrite (Serve_registers s stream second Hrecv).
  destruct (lo.Find _ _) as [existingRoute|] eqn:Hfind; simpl; [|done].
  apply Find_Some in Hfind as [Hin Htest].
  apply same_route_true in Htest. by destruct (Hnone existingRoute Hin).
Qed.



(** ** Declarations *)








(** ** Policies *)

Lemma fill_principal_unnamed s principal :
  unnamed_service principal →
  fill_principal s principal
  = {| Type_ := Type_ principal; Name := serviceName s |}.
Proof.
  intros Hunnamed. unfold fill_principal, GetName, GetType.
  by rewrite decide_True.
Qed.

Lemma fill_principal_other s principal :
  ¬ unnamed_service principal → fill_principal s principal = principal.
Proof.
  intros Hnamed. unfold fill_principal, GetName, GetType.
  by rewrite decide_False.
Qed.



(** ** What a declaration leaves alone *)

Lemma Declare_same_registrations s req :
  same_registrations s (Declare_ s req).1.
Proof.
  unfold same_registrations, Declare_.
  destruct (Resource_ req) as [resource|]; [|done].
  destruct (Type_ resource); try done.
  by destruct (GetPolicy req).
Qed.

Lemma Declare_other_kinds s req resource :
  Resource_ req = Some resource →
  let s' := (Declare_ s req).1 in
  (Type_ resource ≠ ResourceType_Bucket → buckets s' = buckets s)
  ∧ (Type_ resource ≠ ResourceType_Collection →
     collections s' = collections s)
  ∧ (Type_ resource ≠ ResourceType_Api → apis s' = apis s)
  ∧ (Type_ resource ≠ ResourceType_ApiSecurityDefinition →
     apiSecurityDefinition s' = apiSecurityDefinition s)
  ∧ (Type_ resource ≠ ResourceType_Secret → secrets s' = secrets s)
  ∧ (Type_ resource ≠ ResourceType_Policy → policies s' = policies s)
  ∧ (Type_ resource ≠ ResourceType_Topic → topics s' = topics s).
Proof.
  intros Hres. unfold Declare_. rewrite Hres.
  destruct (Type_ resource); simpl; try (repeat split; done);
    destruct (GetPolicy req); repeat split; done.
Qed.

Lemma Declare_other_names s req resource name :
  Resource_ req = Some resource →
  name ≠ Name resource →
  let s' := (Declare_ s req).1 in
  buckets s' !! name = buckets s !! name
  ∧ collections s' !! name = collections s !! name
  ∧ apis s' !! name = apis s !! name
  ∧ secrets s' !! name = secrets s !! name
  ∧ policies s' !! name = policies s !! name
  ∧ topics s' !! name = topics s !! name.
Proof.
  intros Hres Hname. unfold Declare_. rewrite Hres.
  destruct (Type_ resource); simpl; unfold GetName;
    try (repeat split; by rewrite ?lookup_insert_ne).
  destruct (GetPolicy req); simpl;
    repeat split; by rewrite ?lookup_insert_ne.
Qed.

Lemma Declare_other_security s req resource api name :
  Resource_ req = Some resource →
  api ≠ GetApiName (GetApiSecurityDefinition req) ∨ name ≠ Name resource →
  lookup_security (Declare_ s req).1 api name = lookup_security s api name.
Proof.
  intros Hres Hother. unfold Declare_, lookup_security. rewrite Hres.
  destruct (Type_ resource); simpl; try done;
    [by destruct (GetPolicy req)|].
  set (apiName := GetApiName (GetApiSecurityDefinition req)) in *.
  destruct (decide (api = apiName)) as [->|Hapi].
  - destruct Hother as [?|Hname]; [done|].
    rewrite lookup_insert_eq. simpl. unfold GetName.
    rewrite lookup_insert_ne by done.
    destruct (apiSecurityDefinition s !! apiName); simpl; [done|].
    apply lookup_empty.
  - by rewrite lookup_insert_ne.
Qed.

(** C10.  Every call of [Declare] leaves the routes, schedules,
    subscriptions, websockets, listeners, the proxy and the error sequence
    (and the identity of the service) as they were.  A declaration writes
    at most the mapping of its kind: every mapping of another kind is
    unchanged, and in every mapping the entries under other names are
    unchanged; for a security definition the entries of other APIs, and
    the entries of its API under other names, are unchanged.  A request
    without a resource changes nothing. *)
Theorem Declare_frame
    (s : ServiceRequirements) (req : ResourceDeclareRequest) :
  same_registrations s (Declare_ s req).1
  ∧ (Resource_ req = None → (Declare_ s req).1 = s)
  ∧ ∀ resource, Resource_ req = Some resource →
      ((Type_ resource ≠ ResourceType_Bucket →
          buckets (Declare_ s req).1 = buckets s)
       ∧ (Type_ resource ≠ ResourceType_Collection →
          collections (Declare_ s req).1 = collections s)
       ∧ (Type_ resource ≠ ResourceType_Api →
          apis (Declare_ s req).1 = apis s)
       ∧ (Type_ resource ≠ ResourceType_ApiSecurityDefinition →
          apiSecurityDefinition (Declare_ s req).1 = apiSecurityDefinition s)
       ∧ (Type_ resource ≠ ResourceType_Secret →
          secrets (Declare_ s req).1 = secrets s)
       ∧ (Type_ resource ≠ ResourceType_Policy →
          policies (Declare_ s req).1 = policies s)
       ∧ (Type_ resource ≠ ResourceType_Topic →
          topics (Declare_ s req).1 = topics s))
      ∧ (∀ name, name ≠ Name resource →
           buckets (Declare_ s req).1 !! name = buckets s !! name
           ∧ collections (Declare_ s req).1 !! name = collections s !! name
           ∧ apis (Declare_ s req).1 !! name = apis s !! name
           ∧ secrets (Declare_ s req).1 !! name = secrets s !! name
           ∧ policies (Declare_ s req).1 !! name = policies s !! name
           ∧ topics (Declare_ s req).1 !! name = topics s !! name)
      ∧ (∀ api name,
           api ≠ GetApiName (GetApiSecurityDefinition req)
           ∨ name ≠ Name resource →
           lookup_security (Declare_ s req).1 api name
           = lookup_security s api name).
Proof.
  split; [apply Declare_same_registrations|]. split.
  - intros Hres. unfold Declare_. by rewrite Hres.
  - intros resource Hres.
    split; [exact (Declare_other_kinds s req resource Hres)|]. split.
    + intros name Hname.
      exact (Declare_other_names s req resource name Hres Hname).
    + intros api name Hother.
      exact (Declare_other_security s req resource api name Hres Hother).
Qed.

Lemma Declare_frame_witness :
  let s' := (Declare_ aggregate_with_route declare_images).1 in
  routes s' = routes aggregate_with_route
  ∧ errors s' = errors aggregate_with_route
  ∧ topics s' = topics aggregate_with_route
  ∧ buckets s' !! "images" = Some (Some {| bucket_body := "b" |}).
Proof.
  intros s'.
  destruct (Declare_frame aggregate_with_route declare_images)
    as ((_ & _ & Hroutes & _ & _ & _ & _ & _ & Herrors) & _ & Hkinds).
  destruct (Hkinds {| Type_ := ResourceType_Bucket; Name := "images" |}
              eq_refl) as ((_ & _ & _ & _ & _ & _ & Htopics) & _).
  split; [exact Hroutes|]. split; [exact Herrors|].
  split; [apply Htopics; discriminate|].
  vm_compute. reflexivity.
Defined.

(** * Properties of the provider process supervisor *)

Lemma isExecAny_windows mode : isExecAny "windows" mode = IsRegular mode.
Proof. unfold isExecAny. by rewrite decide_True. Qed.






(** ** Stopping *)

(** On that host the supervisor starts the provider and holds its
    handle. *)
Example StartProviderExecutable_running :
  (StartProviderExecutable kill_once_host sample_fs "/opt/provider" []).1
  = (Some running_provider, None)
  ∧ started
      (StartProviderExecutable kill_once_host sample_fs "/opt/provider" []).2
    = [ {| Pid := 4242%Z |} ].
Proof. vm_compute. split; reflexivity. Qed.

(** C9, as stated, fails: [Stop] keeps the handle, so a second [Stop]
    after a successful one kills again, and fails when that kill does. *)
Lemma Stop_twice_counterexample :
  ¬ (∀ h b t,
       (Stop h b t).1.2 = None →
       (Stop h (Stop h b t).1.1 (Stop h b t).2).1.2 = None).
Proof.
  intros Hclaim.
  specialize (Hclaim kill_once_host running_provider [] eq_refl).
  vm_compute in Hclaim. discriminate Hclaim.
Qed.

(** C9, amended.  Without a handle, [Stop] returns no error and makes no
    call.  With a handle, [Stop] sends one kill to that process and keeps
    the handle; it returns no error when the kill succeeds, and the kill's
    error wrapped when it fails, so it returns an error only on kill
    failure.  A second [Stop] therefore succeeds without a call only when
    no handle is held; after a successful [Stop] of a held process the
    second one sends the kill again and returns what that kill answers. *)
Theorem Stop_kills_held_process (h : Host) (b : ProviderProcess) (t : trace) :
  (process b = None → Stop h b t = ((b, None), t))
  ∧ (∀ proc, process b = Some proc →
       (Stop h b t).2 = ev_Kill proc (Kill h t proc) :: t
       ∧ (Stop h b t).1.1 = b
       ∧ (Stop h b t).1.2 = stop_failed <$> Kill h t proc
       ∧ (∀ err, (Stop h b t).1.2 = Some err →
            ∃ kill_err, Kill h t proc = Some kill_err
                        ∧ err = stop_failed kill_err
                        ∧ Unwrap err = Some kill_err)
       ∧ let t1 := (Stop h b t).2 in
         (Stop h (Stop h b t).1.1 t1).2 = ev_Kill proc (Kill h t1 proc) :: t1
         ∧ (Stop h (Stop h b t).1.1 t1).1.2 = stop_failed <$> Kill h t1 proc).
Proof.
  split.
  - intros Hnone. unfold Stop. by rewrite Hnone.
  - intros proc Hproc.
    assert (Hstop : ∀ t0,
      Stop h b t0
      = ((b, stop_failed <$> Kill h t0 proc),
         ev_Kill proc (Kill h t0 proc) :: t0)).
    { intros t0. unfold Stop, bind, ret, call_Kill. rewrite Hproc.
      by destruct (Kill h t0 proc). }
    rewrite !Hstop. simpl. rewrite !Hstop. simpl.
    repeat split.
    intros err Herr. destruct (Kill h t proc) as [kill_err|]; [|done].
    injection Herr as <-. by exists kill_err.
Qed.

Lemma Stop_kills_held_process_witness :
  (Stop kill_once_host running_provider []).1.2 = None
  ∧ (Stop kill_once_host running_provider []).2
    = [ev_Kill {| Pid := 4242%Z |} None]
  ∧ Stop kill_once_host (set_process None running_provider) []
    = ((set_process None running_provider, None), []).
Proof.
  destruct (Stop_kills_held_process kill_once_host running_provider [])
    as [_ Hheld].
  destruct (Hheld {| Pid := 4242%Z |} eq_refl) as (Htrace & _ & Herr & _).
  destruct (Stop_kills_held_process kill_once_host
              (set_process None running_provider) []) as [Hnone _].
  split; [|split].
  - rewrite Herr. reflexivity.
  - rewrite Htrace. reflexivity.
  - apply Hnone. reflexivity.
Defined.


(** * Further properties of the collector *)

(** ** The two phases of a stream *)

Ltac unfold_handlers :=
  unfold Serve, Schedule, Subscribe, Listen, HandleEvents, acknowledge.

Ltac bad_start :=
  intros s stream; split;
  [ intros msg err Hrecv; unfold_handlers; by rewrite Hrecv
  | intros msg Hrecv Hmsg; unfold_handlers; by rewrite Hrecv, Hmsg ].

(** Each of the five streaming handlers, given a stream whose receive
    fails, returns the receive error; given a first message that is not a
    registration request, it returns its complaint.  In both cases the
    aggregate is left as it was and nothing is sent.  The complaint of
    [Listen] is the truncated text [first ]. *)
Theorem handlers_refuse_bad_start :
  refuses_bad_start Serve "first message must be a registration request"
  ∧ refuses_bad_start Schedule "first message must be a registration request"
  ∧ refuses_bad_start Subscribe "first message must be a registration request"
  ∧ refuses_bad_start Listen "first "
  ∧ refuses_bad_start HandleEvents
      "first message must be a registration request".
Proof. split; [|split; [|split; [|split]]]; bad_start. Qed.

Lemma handlers_refuse_bad_start_witness :
  Listen aggregate_with_route data_first
  = (aggregate_with_route, [], Some (errorString "first ")).
Proof.
  destruct handlers_refuse_bad_start as (_ & _ & _ & HListen & _).
  destruct (HListen aggregate_with_route data_first) as [_ Hbad].
  exact (Hbad _ eq_refl eq_refl).
Defined.

Ltac acknowledged :=
  intros s stream registrationRequest Hrecv;
  unfold Serve, Schedule, Subscribe, Listen, HandleEvents, acknowledge,
    with_Send;
  simpl; rewrite Hrecv; simpl; done.

(** Each of the five streaming handlers, given a registration request,
    hands exactly one registration response to [Send] and returns what
    [Send] answers; what it records in the aggregate does not depend on
    that answer, so a failed send does not undo the registration. *)
Theorem handlers_acknowledge_once :
  acknowledges_once Serve
  ∧ acknowledges_once Schedule
  ∧ acknowledges_once Subscribe
  ∧ acknowledges_once Listen
  ∧ acknowledges_once HandleEvents.
Proof. split; [|split; [|split; [|split]]]; acknowledged. Qed.

Lemma handlers_acknowledge_once_witness :
  let failing := registering send_fails sample_schedule in
  (Schedule (NewServiceRequirements "orders" EmptyString) failing).2
  = Some (errorString "transport is closing")
  ∧ schedules
      (Schedule (NewServiceRequirements "orders" EmptyString) failing).1.1
    !! "nightly" = Some sample_schedule.
Proof.
  intros failing.
  destruct handlers_acknowledge_once as (_ & HSchedule & _).
  destruct (HSchedule (NewServiceRequirements "orders" EmptyString)
              (stream_of sample_schedule) sample_schedule eq_refl)
    as (_ & _ & Hsame).
  destruct (HSchedule (NewServiceRequirements "orders" EmptyString)
              failing sample_schedule eq_refl) as (_ & Hret & _).
  split; [exact Hret|].
  change failing with (with_Send send_fails (stream_of sample_schedule)).
  rewrite (Hsame send_fails). vm_compute. reflexivity.
Defined.

(** ** Topic subscriptions *)

Lemma Subscribe_registers s stream registrationRequest :
  Recv stream
  = (Some (ClientMessage_RegistrationRequest registrationRequest), None) →
  (Subscribe s stream).1.1
  = set_subscriptions
      (<[topicspb.TopicName registrationRequest :=
           subscriptions_of s (topicspb.TopicName registrationRequest)
           ++ [registrationRequest]]> (subscriptions s)) s.
Proof. intros Hrecv. unfold Subscribe, acknowledge. by rewrite Hrecv. Qed.

(** Any number of subscriptions to one topic, handled one after the
    other, are all stored, in the order they came, after the
    subscriptions the topic already had; no error is recorded and the
    other topics are left as they were. *)
Theorem Subscribe_each_appends
    (send : ServerMessage → option error) (topic : string)
    (regs : list topicspb.RegistrationRequest) (s : ServiceRequirements) :
  (∀ r, r ∈ regs → topicspb.TopicName r = topic) →
  subscriptions_of (Subscribe_each send s regs) topic
  = subscriptions_of s topic ++ regs
  ∧ errors (Subscribe_each send s regs) = errors s
  ∧ ∀ other, other ≠ topic →
      subscriptions (Subscribe_each send s regs) !! other
      = subscriptions s !! other.
Proof.
  revert s. induction regs as [|r regs IH]; intros s Hall.
  - simpl. by rewrite app_nil_r.
  - assert (Hr : topicspb.TopicName r = topic).
    { apply Hall, list_elem_of_here. }
    assert (Hrest : ∀ r', r' ∈ regs → topicspb.TopicName r' = topic).
    { intros r' Hin. by apply Hall, list_elem_of_further. }
    unfold Subscribe_each in *. cbn [foldl].
    rewrite (Subscribe_registers s (registering send r) r eq_refl), Hr.
    match goal with
    | |- context [foldl ?f ?s1 regs] => set (s1' := s1)
    end.
    destruct (IH s1' Hrest) as (Hsubs & Herrors & Hother).
    rewrite Hsubs, Herrors. subst s1'. split; [|split].
    + unfold subscriptions_of at 1. simpl. rewrite lookup_insert_eq. simpl.
      by rewrite <- app_assoc.
    + done.
    + intros other Hne. rewrite (Hother other Hne). simpl.
      by rewrite lookup_insert_ne.
Qed.

Lemma Subscribe_each_appends_witness :
  subscriptions_of
    (Subscribe_each (λ _, None) (NewServiceRequirements "orders" EmptyString)
       [sample_topic; sample_topic; sample_topic]) "orders"
  = [sample_topic; sample_topic; sample_topic].
Proof.
  assert (Hall : ∀ r, r ∈ [sample_topic; sample_topic; sample_topic] →
                      topicspb.TopicName r = "orders").
  { intros r Hin. rewrite !elem_of_cons, elem_of_nil in Hin.
    destruct Hin as [->|[->|[->|[]]]]; reflexivity. }
  exact (proj1 (Subscribe_each_appends (λ _, None) "orders"
                  [sample_topic; sample_topic; sample_topic]
                  (NewServiceRequirements "orders" EmptyString) Hall)).
Defined.

(** ** Schedules under distinct names *)

Lemma Schedule_fresh s stream registrationRequest :
  Recv stream
  = (Some (ClientMessage_RegistrationRequest registrationRequest), None) →
  schedules s !! schedulespb.ScheduleName registrationRequest = None →
  (Schedule s stream).1.1
  = set_schedules
      (<[schedulespb.ScheduleName registrationRequest := registrationRequest]>
         (schedules s)) s.
Proof.
  intros Hrecv Hfresh.
  rewrite (Schedule_registers s stream registrationRequest Hrecv). simpl.
  by rewrite Hfresh.
Qed.

(** Schedules registered one after the other under names that differ
    from each other and from every name already taken are all stored: the
    mapping grows by their number, each is found under its name, and no
    error is recorded. *)
Theorem Schedule_each_distinct
    (send : ServerMessage → option error)
    (regs : list schedulespb.RegistrationRequest) (s : ServiceRequirements) :
  NoDup (schedulespb.ScheduleName <$> regs) →
  (∀ r, r ∈ regs → schedules s !! schedulespb.ScheduleName r = None) →
  errors (Schedule_each send s regs) = errors s
  ∧ size (schedules (Schedule_each send s regs))
    = size (schedules s) + length regs
  ∧ (∀ r, r ∈ regs →
       schedules (Schedule_each send s regs) !! schedulespb.ScheduleName r
       = Some r)
  ∧ ∀ name, name ∉ schedulespb.ScheduleName <$> regs →
      schedules (Schedule_each send s regs) !! name = schedules s !! name.
Proof.
  revert s. induction regs as [|r regs IH]; intros s Hnodup Hfresh.
  - simpl. repeat split; [lia|]. intros r Hin. by apply elem_of_nil in Hin.
  - rewrite fmap_cons in Hnodup. apply NoDup_cons in Hnodup as [Hr Hnodup].
    assert (Hhead : schedules s !! schedulespb.ScheduleName r = None).
    { apply Hfresh, list_elem_of_here. }
    unfold Schedule_each in *. cbn [foldl].
    rewrite (Schedule_fresh s (registering send r) r eq_refl Hhead).
    match goal with
    | |- context [foldl ?f ?s1 regs] => set (s1' := s1)
    end.
    assert (Hfresh' : ∀ r', r' ∈ regs →
              schedules s1' !! schedulespb.ScheduleName r' = None).
    { intros r' Hin. subst s1'. simpl.
      rewrite lookup_insert_ne.
      - by apply Hfresh, list_elem_of_further.
      - intros Heq. apply Hr. rewrite Heq.
        by apply list_elem_of_fmap_2. }
    destruct (IH s1' Hnodup Hfresh') as (Herrors & Hsize & Hstored & Hother).
    split; [by rewrite Herrors|]. split; [|split].
    + rewrite Hsize. subst s1'. simpl.
      rewrite map_size_insert_None by done. lia.
    + intros r' [->|Hin]%elem_of_cons; [|by apply Hstored].
      rewrite (Hother _ Hr). subst s1'. simpl. apply lookup_insert_eq.
    + intros name Hname. rewrite fmap_cons in Hname.
      apply not_elem_of_cons in Hname as [Hne Hname].
      rewrite (Hother _ Hname). subst s1'. simpl.
      by rewrite lookup_insert_ne.
Qed.

Lemma Schedule_each_distinct_witness :
  let regs :=
    [ sample_schedule;
      {| schedulespb.ScheduleName := "hourly";
         schedulespb.Cadence := "every hour" |} ] in
  errors (Schedule_each (λ _, None)
            (NewServiceRequirements "orders" EmptyString) regs) = []
  ∧ size (schedules (Schedule_each (λ _, None)
                       (NewServiceRequirements "orders" EmptyString) regs))
    = 2.
Proof.
  intros regs.
  assert (Hnodup : NoDup (schedulespb.ScheduleName <$> regs)).
  { subst regs. simpl. apply NoDup_cons. split; [|apply NoDup_singleton].
    intros Hin%list_elem_of_singleton. discriminate Hin. }
  assert (Hfresh : ∀ r, r ∈ regs →
            schedules (NewServiceRequirements "orders" EmptyString)
              !! schedulespb.ScheduleName r = None).
  { intros r _. apply lookup_empty. }
  destruct (Schedule_each_distinct (λ _, None) regs
              (NewServiceRequirements "orders" EmptyString) Hnodup Hfresh)
    as (Herrors & Hsize & _).
  split; [exact Herrors | exact Hsize].
Defined.

(** ** Websocket handlers *)

Lemma HandleEvents_registers s stream registrationRequest :
  Recv stream
  = (Some (ClientMessage_RegistrationRequest registrationRequest), None) →
  let socket := websocketspb.SocketName registrationRequest in
  (HandleEvents s stream).1.1
  = match lo.Find (handlers_of s socket) (same_event registrationRequest) with
    | Some existing => append_error (websocket_conflict existing) s
    | None =>
        set_websockets
          (<[socket := handlers_of s socket ++ [registrationRequest]]>
             (websockets s)) s
    end.
Proof.
  intros Hrecv socket. unfold HandleEvents, acknowledge. rewrite Hrecv.
  simpl. fold socket. unfold handlers_of, websocket_conflict.
  by destruct (lo.Find _ _).
Qed.

Lemma same_event_true registrationRequest item :
  same_event registrationRequest item = true
  ↔ websocketspb.EventType item = websocketspb.EventType registrationRequest.
Proof. unfold same_event. apply bool_decide_eq_true. Qed.

(** A websocket registration is refused exactly when its socket already
    holds a handler for the same event type: then one conflict error is
    appended, naming the first such handler, and the handlers are left as
    they were.  Otherwise the registration is appended to the handlers of
    its socket and no error is recorded; handlers for other event types
    on the same socket do not stand in the way. *)
Theorem HandleEvents_one_handler_per_event
    (s : ServiceRequirements)
    (stream : ServerStream websocketspb.RegistrationRequest)
    (registrationRequest : websocketspb.RegistrationRequest) :
  Recv stream
  = (Some (ClientMessage_RegistrationRequest registrationRequest), None) →
  let socket := websocketspb.SocketName registrationRequest in
  let event := websocketspb.EventType registrationRequest in
  (event ∈ websocketspb.EventType <$> handlers_of s socket →
     websockets (HandleEvents s stream).1.1 = websockets s
     ∧ ∃ existing,
         existing ∈ handlers_of s socket
         ∧ websocketspb.EventType existing = event
         ∧ errors (HandleEvents s stream).1.1
           = errors s ++ [websocket_conflict existing])
  ∧ (event ∉ websocketspb.EventType <$> handlers_of s socket →
     websockets (HandleEvents s stream).1.1
     = <[socket := handlers_of s socket ++ [registrationRequest]]>
         (websockets s)
     ∧ errors (HandleEvents s stream).1.1 = errors s).
Proof.
  intros Hrecv socket event.
  rewrite (HandleEvents_registers s stream registrationRequest Hrecv).
  fold socket.
  destruct (lo.Find _ _) as [existing|] eqn:Hfind.
  - apply Find_Some in Hfind as [Hin Htest].
    apply same_event_true in Htest. split.
    + intros _. split; [done|]. by exists existing.
    + intros Hnot. exfalso. apply Hnot. fold event in Htest.
      rewrite <- Htest. by apply list_elem_of_fmap_2.
  - rewrite Find_None in Hfind. split; [|done].
    intros (item & Hevent & Hin)%list_elem_of_fmap. exfalso.
    specialize (Hfind item Hin).
    assert (same_event registrationRequest item = true); [|congruence].
    by apply same_event_true.
Qed.

Lemma HandleEvents_one_handler_per_event_witness :
  let s := (HandleEvents (NewServiceRequirements "orders" EmptyString)
              (stream_of connect_handler)).1.1 in
  websockets (HandleEvents s (stream_of connect_handler)).1.1 = websockets s
  ∧ length (errors (HandleEvents s (stream_of connect_handler)).1.1) = 1.
Proof.
  intros s.
  destruct (HandleEvents_one_handler_per_event s (stream_of connect_handler)
              connect_handler eq_refl) as [Hrefused _].
  assert (Hheld : websocketspb.EventType connect_handler
                  ∈ websocketspb.EventType
                    <$> handlers_of s
                          (websocketspb.SocketName connect_handler)).
  { vm_compute. apply list_elem_of_here. }
  destruct (Hrefused Hheld) as (Hsame & existing & _ & _ & Herrors).
  split; [exact Hsame|]. rewrite Herrors. reflexivity.
Defined.

(** ** Invariants of a run *)

Lemma reachable_step s s' : reachable s → step s s' → reachable s'.
Proof. intros Hs Hstep. destruct Hstep; by constructor. Qed.

Lemma reachable_invariant (P : ServiceRequirements → Prop) :
  (∀ name type, P (NewServiceRequirements name type)) →
  (∀ s s', P s → step s s' → P s') →
  ∀ s, reachable s → P s.
Proof.
  intros Hnew Hstep s Hs.
  induction Hs; [apply Hnew | ..]; (eapply Hstep; [eassumption|constructor]).
Qed.

(** What each call writes, one equation per kind of call. *)
Lemma step_cases s s' :
  step s s' →
  (∃ req, s' = (Declare_ s req).1)
  ∨ (∃ conflicts req, s' = set_proxy (Some req) (set_errors (errors s ++ conflicts) s))
  ∨ s' = s
  ∨ (∃ err, s' = append_error err s)
  ∨ (∃ r, lo.Find (routes_of s (apispb.Api r)) (same_route r) = None
          ∧ s' = set_routes
                   (<[apispb.Api r := routes_of s (apispb.Api r) ++ [r]]>
                      (routes s)) s)
  ∨ (∃ r s0, (s0 = s ∨ ∃ err, s0 = append_error err s)
             ∧ s' = set_schedules
                      (<[schedulespb.ScheduleName r := r]> (schedules s0)) s0)
  ∨ (∃ r, s' = set_subscriptions
                 (<[topicspb.TopicName r :=
                      subscriptions_of s (topicspb.TopicName r) ++ [r]]>
                    (subscriptions s)) s)
  ∨ (∃ r, s' = set_listeners
                 (<[storagepb.BucketName r := r]> (listeners s)) s)
  ∨ (∃ r, lo.Find (handlers_of s (websocketspb.SocketName r)) (same_event r)
          = None
          ∧ s' = set_websockets
                   (<[websocketspb.SocketName r :=
                        handlers_of s (websocketspb.SocketName r) ++ [r]]>
                      (websockets s)) s).
Proof.
  intros Hstep. destruct Hstep as [s req | s req | s stream | s stream
                                  | s stream | s stream | s stream].
  - left. by exists req.
  - right. left. unfold Proxy.
    destruct (decide (0 < size (routes s))); simpl;
      destruct (proxy s); simpl.
    + eexists [_; _], req. unfold append_error. simpl.
      by rewrite <- app_assoc.
    + by eexists [_], req.
    + by eexists [_], req.
    + exists [], req. unfold set_errors. simpl. by rewrite app_nil_r.
  - handler_cases stream;
      [by right; right; left | | by right; right; left].
    fold (routes_of s (apispb.Api registrationRequest)).
    destruct (lo.Find _ _) eqn:Hfind; simpl.
    + right. right. right. left. eauto.
    + do 4 right. left. eauto.
  - handler_cases stream;
      [by right; right; left | | by right; right; left].
    do 5 right. left. exists registrationRequest.
    destruct (schedules s !! _); simpl; eauto 6.
  - handler_cases stream;
      [by right; right; left | | by right; right; left].
    do 6 right. left. by exists registrationRequest.
  - handler_cases stream;
      [by right; right; left | | by right; right; left].
    destruct (buckets s !! _); simpl.
    + right. right. right. left. eauto.
    + do 7 right. left. eauto.
  - handler_cases stream;
      [by right; right; left | | by right; right; left].
    fold (handlers_of s (websocketspb.SocketName registrationRequest)).
    destruct (lo.Find _ _) eqn:Hfind; simpl.
    + right. right. right. left. eauto.
    + do 8 right. eauto.
Qed.

Ltac step_shapes Hstep :=
  let req := fresh "req" in
  let conflicts := fresh "conflicts" in
  let err := fresh "err" in
  let r := fresh "r" in
  let s0 := fresh "s0" in
  let Hfind := fresh "Hfind" in
  let Hs0 := fresh "Hs0" in
  destruct (step_cases _ _ Hstep)
    as [[req ->] | [(conflicts & req & ->) | [-> | [[err ->]
       | [(r & Hfind & ->) | [(r & s0 & Hs0 & ->) | [[r ->] | [[r ->]
       | (r & Hfind & ->)]]]]]]]].

Lemma elem_of_default_lookup {V : Type} (m : gmap string (list V)) k x :
  x ∈ default [] (m !! k) → ∃ l, m !! k = Some l ∧ x ∈ l.
Proof.
  destruct (m !! k) as [l|]; simpl; [by exists l|].
  intros Hin. by apply elem_of_nil in Hin.
Qed.

Lemma keyed_append {V : Type} (key : V → string)
    (m : gmap string (list V)) (x : V) :
  (∀ k l r, m !! k = Some l → r ∈ l → key r = k) →
  ∀ k l r,
    <[key x := default [] (m !! key x) ++ [x]]> m !! k = Some l →
    r ∈ l → key r = k.
Proof.
  intros Hm k l r Hl Hr. destruct (decide (key x = k)) as [<-|Hne].
  - rewrite lookup_insert_eq in Hl. injection Hl as <-.
    apply elem_of_app in Hr as [Hold|Hnew].
    + apply elem_of_default_lookup in Hold as (l0 & Hl0 & Hin).
      by eapply Hm.
    + by apply list_elem_of_singleton in Hnew as ->.
  - rewrite lookup_insert_ne in Hl by done. by eapply Hm.
Qed.

Lemma keyed_insert {V : Type} (key : V → string) (m : gmap string V) (x : V) :
  (∀ k r, m !! k = Some r → key r = k) →
  ∀ k r, <[key x := x]> m !! k = Some r → key r = k.
Proof.
  intros Hm k r Hr. destruct (decide (key x = k)) as [<-|Hne].
  - rewrite lookup_insert_eq in Hr. by injection Hr as <-.
  - rewrite lookup_insert_ne in Hr by done. by apply Hm.
Qed.

(** On every aggregate of a run, each route is stored under the API it
    names, each schedule under its schedule name, each subscription under
    its topic, each websocket handler under its socket and each listener
    under its bucket. *)
Theorem registrations_stored_under_own_key (s : ServiceRequirements) :
  reachable s → stored_under_own_key s.
Proof.
  revert s. apply reachable_invariant.
  - intros name type. unfold stored_under_own_key. simpl.
    repeat split; intros; by rewrite lookup_empty in *.
  - intros s s' (Hr & Hsch & Hsub & Hw & Hl) Hstep.
    unfold stored_under_own_key. step_shapes Hstep; simpl; try done.
    + destruct (Declare_same_registrations s req)
        as (_ & _ & -> & -> & -> & -> & -> & _). done.
    + split; [|done]. by apply (keyed_append apispb.Api).
    + assert (Hsame : schedules s0 = schedules s
                      ∧ subscriptions s0 = subscriptions s
                      ∧ routes s0 = routes s
                      ∧ websockets s0 = websockets s
                      ∧ listeners s0 = listeners s).
      { by destruct Hs0 as [->|[err ->]]. }
      destruct Hsame as (-> & -> & -> & -> & ->).
      split; [done|]. split; [|done].
      by apply (keyed_insert schedulespb.ScheduleName).
    + split; [done|]. split; [done|]. split; [|done].
      by apply (keyed_append topicspb.TopicName).
    + do 4 (split; [done|]).
      by apply (keyed_insert storagepb.BucketName).
    + do 3 (split; [done|]). split; [|done].
      by apply (keyed_append websocketspb.SocketName).
Qed.

Lemma registrations_stored_under_own_key_witness :
  reachable sample_aggregate ∧ stored_under_own_key sample_aggregate.
Proof.
  split; [exact sample_aggregate_reachable|].
  exact (registrations_stored_under_own_key sample_aggregate
           sample_aggregate_reachable).
Defined.






(** ** Nothing recorded is ever lost *)

Lemma sequences_extended_refl {V : Type} (m : gmap string (list V)) :
  sequences_extended m m.
Proof. intros k l Hk. by exists l. Qed.

Lemma sequences_extended_trans {V : Type} (m1 m2 m3 : gmap string (list V)) :
  sequences_extended m1 m2 → sequences_extended m2 m3 →
  sequences_extended m1 m3.
Proof.
  intros H12 H23 k l Hk.
  destruct (H12 k l Hk) as (l2 & Hk2 & Hprefix2).
  destruct (H23 k l2 Hk2) as (l3 & Hk3 & Hprefix3).
  exists l3. split; [done|]. by etrans.
Qed.

Lemma sequences_extended_append {V : Type} (m : gmap string (list V)) k x :
  sequences_extended m (<[k := default [] (m !! k) ++ [x]]> m).
Proof.
  intros k' l Hk'. destruct (decide (k = k')) as [<-|Hne].
  - rewrite lookup_insert_eq, Hk'. simpl. exists (l ++ [x]).
    split; [done|]. by apply prefix_app_r.
  - rewrite lookup_insert_ne by done. by exists l.
Qed.

Lemma prefix_append {A : Type} (l k : list A) : l `prefix_of` l ++ k.
Proof. by exists k. Qed.

Lemma dom_insert_keeps {V : Type} (m : gmap string V) k x :
  dom m ⊆ dom (<[k := x]> m).
Proof. apply dom_insert_subseteq. Qed.

Create HintDb registry discriminated.

#[local] Hint Resolve sequences_extended_refl sequences_extended_append
  prefix_append dom_insert_keeps : registry.
#[local] Hint Extern 1 (_ `prefix_of` _) => reflexivity : registry.
#[local] Hint Extern 1 (_ ⊆ _) => reflexivity : registry.

Lemma nothing_lost_refl s : nothing_lost s s.
Proof. unfold nothing_lost. split_and!; auto with registry. Qed.

Lemma nothing_lost_trans s1 s2 s3 :
  nothing_lost s1 s2 → nothing_lost s2 s3 → nothing_lost s1 s3.
Proof.
  unfold nothing_lost. intros H12 H23.
  destruct_and!. split_and!;
    try (by etrans); by eapply sequences_extended_trans.
Qed.

Lemma Declare_nothing_lost s req : nothing_lost s (Declare_ s req).1.
Proof.
  unfold Declare_.
  destruct (Resource_ req) as [resource|]; [|apply nothing_lost_refl].
  destruct (Type_ resource); try apply nothing_lost_refl;
    try (unfold nothing_lost; simpl; split_and!; by auto with registry).
  destruct (GetPolicy req); [|apply nothing_lost_refl].
  unfold nothing_lost; simpl; split_and!; by auto with registry.
Qed.

(** No call of a handler loses anything: the error sequence is only
    extended, every API, topic and socket keeps its key and what it held
    remains the beginning of what it holds, and no key leaves the
    schedules, the listeners or any mapping of declared resources.  The
    same holds over any number of calls. *)
Theorem handlers_lose_nothing (s s' : ServiceRequirements) :
  rtc step s s' → nothing_lost s s'.
Proof.
  induction 1 as [s | s s1 s' Hstep _ IH]; [apply nothing_lost_refl|].
  apply (nothing_lost_trans s s1 s'); [|exact IH]. clear IH.
  step_shapes Hstep; try apply Declare_nothing_lost;
    try apply nothing_lost_refl;
    try (unfold nothing_lost, routes_of, subscriptions_of, handlers_of;
         simpl; split_and!; by auto with registry).
  destruct Hs0 as [->|[err ->]];
    unfold nothing_lost; simpl; split_and!; by auto with registry.
Qed.

Lemma handlers_lose_nothing_witness :
  nothing_lost (NewServiceRequirements "orders" EmptyString) sample_aggregate.
Proof.
  apply handlers_lose_nothing. unfold sample_aggregate.
  eapply rtc_l; [apply step_Serve|].
  eapply rtc_l; [apply step_Schedule|]. apply rtc_refl.
Defined.

(** ** The worker count along a run *)

Lemma size_insert_bounds {V : Type} (m : gmap string V) k x :
  (size m ≤ size (<[k := x]> m) ≤ S (size m))%nat.
Proof. rewrite map_size_insert. destruct (m !! k); simpl; lia. Qed.

(** A call of a handler never lowers the worker count and raises it by at
    most one; declarations and proxy registrations leave it as it is. *)
Theorem WorkerCount_grows_by_at_most_one (s s' : ServiceRequirements) :
  step s s' →
  (WorkerCount s ≤ WorkerCount s' ≤ S (WorkerCount s))%nat
  ∧ (∀ req, WorkerCount (Declare_ s req).1 = WorkerCount s)
  ∧ (∀ req, WorkerCount (Proxy s req).1 = WorkerCount s).
Proof.
  intros Hstep.
  assert (HDeclare : ∀ req, WorkerCount (Declare_ s req).1 = WorkerCount s).
  { intros req. rewrite !WorkerCount_keys.
    by destruct (Declare_same_registrations s req)
      as (_ & _ & -> & -> & -> & -> & -> & _). }
  split; [|split; [done|]].
  - rewrite !WorkerCount_keys. step_shapes Hstep; simpl; try lia.
    + rewrite <- !WorkerCount_keys, HDeclare. lia.
    + pose proof (size_insert_bounds (routes s) (apispb.Api r)
                    (routes_of s (apispb.Api r) ++ [r])). lia.
    + assert (Hsame : schedules s0 = schedules s
                      ∧ subscriptions s0 = subscriptions s
                      ∧ routes s0 = routes s
                      ∧ websockets s0 = websockets s
                      ∧ listeners s0 = listeners s).
      { by destruct Hs0 as [->|[err ->]]. }
      destruct Hsame as (-> & -> & -> & -> & ->).
      pose proof (size_insert_bounds (schedules s)
                    (schedulespb.ScheduleName r) r). lia.
    + pose proof (size_insert_bounds (subscriptions s) (topicspb.TopicName r)
                    (subscriptions_of s (topicspb.TopicName r) ++ [r])). lia.
    + pose proof (size_insert_bounds (listeners s) (storagepb.BucketName r) r).
      lia.
    + pose proof (size_insert_bounds (websockets s)
                    (websocketspb.SocketName r)
                    (handlers_of s (websocketspb.SocketName r) ++ [r])). lia.
  - intros req. rewrite !WorkerCount_keys. unfold Proxy. simpl.
    destruct (decide (0 < size (routes s))); simpl; by destruct (proxy s).
Qed.

Lemma WorkerCount_grows_by_at_most_one_witness :
  (WorkerCount aggregate_with_route ≤ WorkerCount sample_aggregate
   ≤ S (WorkerCount aggregate_with_route))%nat.
Proof.
  assert (Hstep : step aggregate_with_route sample_aggregate).
  { unfold sample_aggregate, aggregate_with_route. apply step_Schedule. }
  exact (proj1 (WorkerCount_grows_by_at_most_one aggregate_with_route
                  sample_aggregate Hstep)).
Defined.

(** ** The identity of the service *)

Lemma step_identity s s' :
  step s s' → serviceName s' = serviceName s ∧ serviceType s' = serviceType s.
Proof.
  intros Hstep. step_shapes Hstep; simpl; try done.
  - by destruct (Declare_same_registrations s req) as (-> & -> & _).
  - by destruct Hs0 as [->|[err ->]].
Qed.

(** The constructor keeps the service name and replaces an empty service
    type by [default]; no handler changes either, over any number of
    calls; so the service type of an aggregate of a run is never empty. *)
Theorem service_identity_kept :
  (∀ name type,
     serviceName (NewServiceRequirements name type) = name
     ∧ serviceType (NewServiceRequirements name type)
       = (if decide (type = EmptyString) then "default" else type))
  ∧ (∀ s s', rtc step s s' →
       serviceName s' = serviceName s ∧ serviceType s' = serviceType s)
  ∧ (∀ s, reachable s → serviceType s ≠ EmptyString).
Proof.
  split; [done|]. split.
  - induction 1 as [s | s s1 s' Hstep _ [-> ->]]; [done|].
    by apply step_identity.
  - apply reachable_invariant.
    + intros name type. simpl. by destruct (decide (type = EmptyString)).
    + intros s s' Htype Hstep. by destruct (step_identity s s' Hstep) as [_ ->].
Qed.

Lemma service_identity_kept_witness :
  serviceName sample_aggregate = "orders"
  ∧ serviceType sample_aggregate = "default".
Proof.
  destruct service_identity_kept as (Hnew & Hkept & _).
  assert (Hrun : rtc step (NewServiceRequirements "orders" EmptyString)
                   sample_aggregate).
  { unfold sample_aggregate.
    eapply rtc_l; [apply step_Serve|].
    eapply rtc_l; [apply step_Schedule|]. apply rtc_refl. }
  destruct (Hkept _ _ Hrun) as [-> ->].
  exact (Hnew "orders" EmptyString).
Defined.

(** ** Policies *)


Lemma fill_principal_idempotent s principal :
  fill_principal s (fill_principal s principal) = fill_principal s principal.
Proof.
  destruct (decide (unnamed_service principal)) as [Hunnamed|Hnamed].
  - rewrite (fill_principal_unnamed s principal Hunnamed).
    unfold fill_principal, GetName, GetType. simpl.
    by destruct (decide _).
  - by rewrite !(fill_principal_other s principal Hnamed).
Qed.

Lemma Declare_Policy_stores s req resource policy :
  Resource_ req = Some resource →
  Type_ resource = ResourceType_Policy →
  config req = Config_Policy policy →
  Declare_ s req
  = (set_policies
       (<[Name resource :=
            if decide (Principals policy = [])
            then set_Principals [service_principal s] policy
            else set_Principals (fill_principal s <$> Principals policy)
                   policy]> (policies s)) s,
     declared_ok).
Proof.
  intros Hres Htype Hconfig. unfold Declare_, GetPolicy.
  by rewrite Hres, Htype, Hconfig.
Qed.




(** Declaring again, under the same name, the policy a [Policy]
    declaration has stored changes nothing: the principals were settled
    when the policy was first declared. *)
Theorem Declare_Policy_settled
    (s : ServiceRequirements) (req : ResourceDeclareRequest)
    (resource : Resource) (policy stored : PolicyResource) :
  Resource_ req = Some resource →
  Type_ resource = ResourceType_Policy →
  config req = Config_Policy policy →
  policies (Declare_ s req).1 !! Name resource = Some stored →
  Declare_ (Declare_ s req).1
    {| Resource_ := Some resource; config := Config_Policy stored |}
  = ((Declare_ s req).1, declared_ok).
Proof.
  intros Hres Htype Hconfig.
  rewrite (Declare_Policy_stores s req resource policy Hres Htype Hconfig).
  simpl. rewrite lookup_insert_eq. intros [= <-].
  rewrite (Declare_Policy_stores _
             (Build_ResourceDeclareRequest (Some resource) (Config_Policy _))
             resource _ eq_refl Htype eq_refl).
  simpl. f_equal. unfold set_policies. simpl. f_equal.
  rewrite insert_insert_eq. f_equal.
  destruct (decide (Principals policy = [])) as [Hnone|Hsome]; simpl.
  - unfold set_Principals. simpl. f_equal.
    unfold fill_principal, service_principal, GetName, GetType. simpl.
    by destruct (decide _) as [[-> _]|].
  - rewrite decide_False; [|intros Hnil; by apply fmap_nil_inv in Hnil].
    unfold set_Principals. simpl. f_equal.
    rewrite <- list_fmap_compose. apply list_fmap_ext.
    intros i principal _. simpl.
    transitivity (fill_principal s (fill_principal s principal));
      [reflexivity | apply fill_principal_idempotent].
Qed.

Lemma Declare_Policy_settled_witness :
  let s := (Declare_ (NewServiceRequirements "orders" EmptyString)
              (declare_policy unnamed_policy)).1 in
  ∃ stored,
    policies s !! "reader" = Some stored
    ∧ Declare_ s (declare_policy stored) = (s, declared_ok).
Proof.
  intros s.
  assert (Hlookup : is_Some (policies s !! "reader")).
  { subst s.
    rewrite (Declare_Policy_stores _ (declare_policy unnamed_policy)
               {| Type_ := ResourceType_Policy; Name := "reader" |}
               unnamed_policy eq_refl eq_refl eq_refl).
    simpl. rewrite lookup_insert_eq. by eexists. }
  destruct Hlookup as [stored Hlookup].
  exists stored. split; [exact Hlookup|].
  exact (Declare_Policy_settled
           (NewServiceRequirements "orders" EmptyString)
           (declare_policy unnamed_policy)
           {| Type_ := ResourceType_Policy; Name := "reader" |}
           unnamed_policy stored eq_refl eq_refl eq_refl Hlookup).
Defined.

(** ** API security definitions *)

Lemma Declare_security_stores s req resource :
  Resource_ req = Some resource →
  Type_ resource = ResourceType_ApiSecurityDefinition →
  let def := GetApiSecurityDefinition req in
  Declare_ s req
  = (set_apiSecurityDefinition
       (<[GetApiName def :=
            <[Name resource := def]>
              (default ∅ (apiSecurityDefinition s !! GetApiName def))]>
          (apiSecurityDefinition s)) s,
     declared_ok).
Proof.
  intros Hres Htype def. unfold Declare_. rewrite Hres, Htype. fold def.
  unfold GetName. by destruct (apiSecurityDefinition s !! GetApiName def).
Qed.

(** A security definition is stored under its API and its name, and can
    be read back; the first definition of an API creates the mapping of
    that API with this single entry; definitions already stored under
    other names of the API stay, so two definitions declared under
    different names are both held.  A declaration of this kind without a
    definition payload stores nil under the API with the empty name.  No
    error is recorded. *)
Theorem Declare_security_definition
    (s : ServiceRequirements) (req : ResourceDeclareRequest)
    (resource : Resource) :
  Resource_ req = Some resource →
  Type_ resource = ResourceType_ApiSecurityDefinition →
  let def := GetApiSecurityDefinition req in
  let api := GetApiName def in
  (Declare_ s req).2 = declared_ok
  ∧ errors (Declare_ s req).1 = errors s
  ∧ lookup_security (Declare_ s req).1 api (Name resource) = Some def
  ∧ (apiSecurityDefinition s !! api = None →
     apiSecurityDefinition (Declare_ s req).1 !! api
     = Some {[Name resource := def]})
  ∧ (∀ name, name ≠ Name resource →
       lookup_security (Declare_ s req).1 api name
       = lookup_security s api name)
  ∧ (def = None →
     lookup_security (Declare_ s req).1 EmptyString (Name resource)
     = Some None)
  ∧ (∀ later resource',
       Resource_ later = Some resource' →
       Type_ resource' = ResourceType_ApiSecurityDefinition →
       GetApiName (GetApiSecurityDefinition later) = api →
       Name resource' ≠ Name resource →
       lookup_security (Declare_ (Declare_ s req).1 later).1 api
         (Name resource) = Some def
       ∧ lookup_security (Declare_ (Declare_ s req).1 later).1 api
           (Name resource') = Some (GetApiSecurityDefinition later)).
Proof.
  intros Hres Htype def api.
  assert (Hstored : ∀ s0 req0 resource0,
            Resource_ req0 = Some resource0 →
            Type_ resource0 = ResourceType_ApiSecurityDefinition →
            lookup_security (Declare_ s0 req0).1
              (GetApiName (GetApiSecurityDefinition req0)) (Name resource0)
            = Some (GetApiSecurityDefinition req0)).
  { intros s0 req0 resource0 Hres0 Htype0.
    rewrite (Declare_security_stores s0 req0 resource0 Hres0 Htype0).
    unfold lookup_security. simpl. rewrite lookup_insert_eq. simpl.
    apply lookup_insert_eq. }
  pose proof (Declare_security_stores s req resource Hres Htype) as Hd.
  simpl in Hd. subst api def. split_and!.
  - by rewrite Hd.
  - by rewrite Hd.
  - by apply Hstored.
  - intros Hnone. rewrite Hd. simpl. rewrite lookup_insert_eq, Hnone. simpl.
    by rewrite insert_empty.
  - intros name Hname.
    apply (Declare_other_security s req resource _ name Hres). by right.
  - intros Hdef. pose proof (Hstored s req resource Hres Htype) as Hlookup.
    rewrite Hdef in Hlookup. exact Hlookup.
  - intros later resource' Hres' Htype' Hapi Hname. split.
    + rewrite (Declare_other_security _ later resource' _ (Name resource)
                 Hres'); [by apply Hstored | by right].
    + rewrite <- Hapi. by apply Hstored.
Qed.

Lemma Declare_security_definition_witness :
  let s := (Declare_
              (Declare_ (NewServiceRequirements "orders" EmptyString)
                 (declare_security "jwt")).1
              (declare_security "oidc")).1 in
  lookup_security s "main" "jwt"
  = Some (Some {| ApiName := "main"; definition := "jwt" |})
  ∧ lookup_security s "main" "oidc"
    = Some (Some {| ApiName := "main"; definition := "oidc" |}).
Proof.
  intros s.
  destruct (Declare_security_definition
              (NewServiceRequirements "orders" EmptyString)
              (declare_security "jwt")
              {| Type_ := ResourceType_ApiSecurityDefinition; Name := "jwt" |}
              eq_refl eq_refl) as (_ & _ & _ & _ & _ & _ & Hboth).
  assert (Hname : "oidc" ≠ "jwt") by discriminate.
  exact (Hboth (declare_security "oidc")
           {| Type_ := ResourceType_ApiSecurityDefinition; Name := "oidc" |}
           eq_refl eq_refl eq_refl Hname).
Defined.

(** ** Routes and the proxy *)

(** [Serve] neither reads nor writes the proxy: with a proxy registered
    it does what it does without one, and the proxy stays.  So a route
    registered after a proxy is accepted without any error, and the
    aggregate then holds both. *)
Theorem Serve_ignores_proxy
    (s : ServiceRequirements)
    (stream : ServerStream apispb.RegistrationRequest)
    (held : option httppb.HttpProxyRequest) :
  Serve (set_proxy held s) stream
  = (set_proxy held (Serve s stream).1.1, (Serve s stream).1.2,
     (Serve s stream).2)
  ∧ proxy (Serve s stream).1.1 = proxy s
  ∧ ∀ registrationRequest req,
      Recv stream
      = (Some (ClientMessage_RegistrationRequest registrationRequest), None) →
      routes s = ∅ →
      errors (Serve (Proxy s req).1 stream).1.1 = errors (Proxy s req).1
      ∧ proxy (Serve (Proxy s req).1 stream).1.1 = Some req
      ∧ routes (Serve (Proxy s req).1 stream).1.1
        = {[apispb.Api registrationRequest := [registrationRequest]]}.
Proof.
  assert (Hproxy : ∀ s0, proxy (Serve s0 stream).1.1 = proxy s0).
  { intros s0. handler_cases stream; try done. by destruct (lo.Find _ _). }
  split; [|split; [apply Hproxy|]].
  - handler_cases stream; try done. by destruct (lo.Find _ _).
  - intros registrationRequest req Hrecv Hempty.
    assert (Hroutes : routes (Proxy s req).1 = ∅).
    { rewrite <- Hempty. unfold Proxy. simpl.
      destruct (decide (0 < size (routes s))); simpl; by destruct (proxy s). }
    rewrite Hproxy.
    destruct (Serve_accepts (Proxy s req).1 stream registrationRequest Hrecv)
      as [Haccepted Herrors].
    { intros first Hin. unfold routes_of in Hin.
      rewrite Hroutes, lookup_empty in Hin. by apply elem_of_nil in Hin. }
    split; [done|]. split; [done|].
    rewrite Haccepted. unfold routes_of.
    rewrite Hroutes, lookup_empty. simpl. by rewrite insert_empty.
Qed.

Lemma Serve_ignores_proxy_witness :
  let s := NewServiceRequirements "orders" EmptyString in
  errors (Serve (Proxy s first_proxy).1 (stream_of sample_route)).1.1 = []
  ∧ proxy (Serve (Proxy s first_proxy).1 (stream_of sample_route)).1.1
    = Some first_proxy
  ∧ routes (Serve (Proxy s first_proxy).1 (stream_of sample_route)).1.1
    = {["main" := [sample_route]]}.
Proof.
  intros s.
  destruct (Serve_ignores_proxy s (stream_of sample_route) None)
    as (_ & _ & Hafter).
  destruct (Hafter sample_route first_proxy eq_refl eq_refl)
    as (Herrors & Hproxy & Hroutes).
  split; [|split; [exact Hproxy | exact Hroutes]].
  rewrite Herrors. reflexivity.
Defined.

(** * Further properties of the provider process supervisor *)

(** ** Executability *)

Lemma exec_any_bits n :
  Z.testbit exec_any n = true ↔ n = 0%Z ∨ n = 3%Z ∨ n = 6%Z.
Proof.
  split.
  - intros Hbit. destruct (Z.lt_ge_cases n 0) as [Hneg|Hpos].
    { by rewrite Z.testbit_neg_r in Hbit. }
    destruct (Z.lt_ge_cases 6 n) as [Hhigh|Hlow].
    { rewrite Z.bits_above_log2 in Hbit; [done | done |].
      change (Z.log2 exec_any) with 6%Z. lia. }
    assert (n = 0 ∨ n = 1 ∨ n = 2 ∨ n = 3 ∨ n = 4 ∨ n = 5 ∨ n = 6)%Z
      as Hcases by lia.
    destruct Hcases as [->|[->|[->|[->|[->|[->| ->]]]]]];
      vm_compute in Hbit; try discriminate; tauto.
  - intros [->|[->| ->]]; reflexivity.
Qed.

Lemma Perm_exec_bits mode : Z.land (Perm mode) exec_any = Z.land mode exec_any.
Proof.
  unfold Perm. rewrite <- Z.land_assoc. f_equal.
Qed.

Lemma no_exec_bit mode :
  Z.land (Perm mode) exec_any = 0%Z ↔ ¬ some_exec_bit mode.
Proof.
  rewrite Perm_exec_bits. unfold some_exec_bit. split.
  - intros Hzero Hsome.
    assert (Hbits : ∀ n, Z.testbit mode n = true →
              Z.testbit exec_any n = true → False).
    { intros n Hmode Hexec.
      assert (Z.testbit (Z.land mode exec_any) n = true) as Hand.
      { rewrite Z.land_spec, Hmode, Hexec. reflexivity. }
      rewrite Hzero, Z.bits_0 in Hand. discriminate. }
    destruct Hsome as [H0|[H3|H6]];
      [ apply (Hbits 0%Z H0) | apply (Hbits 3%Z H3) | apply (Hbits 6%Z H6) ];
      reflexivity.
  - intros Hnone. apply Z.bits_inj'. intros n Hn.
    rewrite Z.land_spec, Z.bits_0.
    destruct (Z.testbit exec_any n) eqn:Hexec; [|apply andb_false_r].
    apply exec_any_bits in Hexec.
    rewrite andb_true_r. apply not_true_is_false. intros Hmode.
    apply Hnone. destruct Hexec as [->|[->| ->]]; tauto.
Qed.

(** A file that is not a regular file (a directory, a symbolic link, a
    device, a pipe, a socket) is executable on no platform.  Off Windows,
    a file is executable exactly when it is regular and the owner, the
    group or the others may execute it; the other permission bits and the
    setuid, setgid and sticky bits play no part.  Whatever is executable
    on some platform is executable on Windows. *)
Theorem isExecAny_characterized (GOOS : string) (mode : FileMode) :
  (IsRegular mode = false → isExecAny GOOS mode = false)
  ∧ (GOOS ≠ "windows" →
     (isExecAny GOOS mode = true
      ↔ IsRegular mode = true ∧ some_exec_bit mode))
  ∧ (isExecAny GOOS mode = true → isExecAny "windows" mode = true).
Proof.
  assert (Hother : GOOS ≠ "windows" →
            (isExecAny GOOS mode = true
             ↔ IsRegular mode = true ∧ some_exec_bit mode)).
  { intros Hos. unfold isExecAny. rewrite decide_False by done.
    rewrite andb_true_iff, negb_true_iff, Z.eqb_neq, no_exec_bit.
    split; intros [Hregular Hbits]; (split; [done|]).
    - unfold some_exec_bit in *.
      destruct (Z.testbit mode 0), (Z.testbit mode 3), (Z.testbit mode 6);
        try tauto.
      exfalso. apply Hbits. intros [?|[?|?]]; discriminate.
    - tauto. }
  split; [|split; [done|]].
  - intros Hregular. unfold isExecAny.
    destruct (decide (GOOS = "windows")); [done|]. by rewrite Hregular.
  - rewrite isExecAny_windows.
    destruct (decide (GOOS = "windows")) as [->|Hos].
    + by rewrite isExecAny_windows.
    + intros Hexec. by apply Hother in Hexec as [? _].
Qed.

Lemma isExecAny_characterized_witness :
  isExecAny "linux" ModeDir = false
  ∧ isExecAny "linux" 493%Z = true
  ∧ isExecAny "windows" 493%Z = true.
Proof.
  destruct (isExecAny_characterized "linux" ModeDir) as (Hdir & _).
  destruct (isExecAny_characterized "linux" 493%Z) as (_ & Hposix & Hwindows).
  assert (Hexec : isExecAny "linux" 493%Z = true).
  { apply Hposix; [discriminate|]. split; [reflexivity|].
    left. reflexivity. }
  split; [apply Hdir; reflexivity|]. split; [exact Hexec|].
  apply Hwindows. exact Hexec.
Defined.

(** ** A successful start *)

Lemma port_environment (port : string) :
  map_to_list (<["PORT" := port]> (∅ : gmap string string))
  = [("PORT", port)]
  ∧ size (<["PORT" := port]> (∅ : gmap string string)) = 1.
Proof.
  rewrite insert_empty. split; [apply map_to_list_singleton|].
  apply map_size_singleton.
Qed.

Lemma startProcess_runs h executablePath t :
  startProcess h
    {| providerPath := executablePath; process := None;
       envMap := Some ∅; Address := EmptyString |} t
  = match GetNextListener h t with
    | inr err =>
        (({| providerPath := executablePath; process := None;
             envMap := Some ∅; Address := EmptyString |}, Some err),
         ev_GetNextListener (inr err) :: t)
    | inl lis =>
        let t1 := ev_GetNextListener (inl lis) :: t in
        let p1 :=
          {| providerPath := executablePath; process := None;
             envMap := Some {["PORT" := pretty (Port lis)]};
             Address := Addr_String lis |} in
        match Close h t1 lis with
        | Some err => ((p1, Some err), ev_Close lis (Some err) :: t1)
        | None =>
            let t2 := ev_Close lis None :: t1 in
            let cmd :=
              {| Path := executablePath;
                 Env := Some (Environ h ++ ["PORT=" +:+ pretty (Port lis)]);
                 Stderr := Some PtermWriter_Debug;
                 Stdout := Some PtermWriter_Debug |} in
            match Start h t2 cmd with
            | inr err => ((p1, Some err), ev_Start cmd (inr err) :: t2)
            | inl proc =>
                ((set_process (Some proc) p1, None),
                 ev_Start cmd (inl proc) :: t2)
            end
        end
    end.
Proof.
  unfold startProcess, bind, ret, call_GetNextListener, call_Close,
    call_Start.
  cbn [envMap providerPath].
  destruct (GetNextListener h t) as [lis|err]; [|reflexivity].
  cbn [set_Address set_envMap envMap providerPath process Address default
       Command Path Env Stderr Stdout].
  unfold id.
  destruct (port_environment (pretty (Port lis))) as [Hlist Hsize].
  rewrite decide_True by (rewrite Hsize; lia). rewrite Hlist.
  cbn [fmap list_fmap fst snd Path Env Stderr Stdout].
  rewrite insert_empty.
  destruct (Close h _ lis) as [err|]; [reflexivity|].
  destruct (Start h _ _) as [proc|err]; reflexivity.
Qed.

Lemma StartProviderExecutable_cases h fs executablePath t :
  (∃ err t',
     StartProviderExecutable h fs executablePath t = ((None, Some err), t'))
  ∨ ∃ fileInfo lis proc cmd,
      Stat fs executablePath = inl fileInfo
      ∧ isExecAny (GOOS h) (Mode fileInfo) = true
      ∧ cmd = {| Path := executablePath;
                 Env := Some (Environ h ++ ["PORT=" +:+ pretty (Port lis)]);
                 Stderr := Some PtermWriter_Debug;
                 Stdout := Some PtermWriter_Debug |}
      ∧ StartProviderExecutable h fs executablePath t
        = ((Some {| providerPath := executablePath;
                    process := Some proc;
                    envMap := Some {["PORT" := pretty (Port lis)]};
                    Address := Addr_String lis |}, None),
           ev_Start cmd (inl proc) :: ev_Close lis None
             :: ev_GetNextListener (inl lis) :: t).
Proof.
  unfold StartProviderExecutable.
  destruct (Stat fs executablePath) as [fileInfo|stat_err];
    [|left; by eexists _, _].
  destruct (isExecAny (GOOS h) (Mode fileInfo)) eqn:Hexec; simpl;
    [|left; by eexists _, _].
  unfold bind. rewrite startProcess_runs.
  destruct (GetNextListener h t) as [lis|err]; simpl;
    [|left; by eexists _, _].
  destruct (Close h _ lis) as [err|]; simpl; [left; by eexists _, _|].
  destruct (Start h _ _) as [proc|err] eqn:Hstart; simpl;
    [|left; by eexists _, _].
  right. exists fileInfo, lis, proc. eexists. by repeat split.
Qed.

(** [StartProviderExecutable] returns either a handle or an error, never
    both and never neither.  When it returns a handle, the file was found
    and executable, and exactly three outside calls were made, in this
    order: a listener was obtained, it was closed without error, and only
    then the command was started.  The command is the given path, its
    environment is the host's environment followed by [PORT=] and the
    decimal port of the listener, and both its output streams go to the
    debug sink.  The handle holds the path, the process just started, the
    address of the listener and that [PORT] entry, and that process is the
    only one started. *)
Theorem StartProviderExecutable_success
    (h : Host) (fs : Fs) (executablePath : string) (t : trace) :
  ((StartProviderExecutable h fs executablePath t).1.1 = None
   ↔ is_Some (StartProviderExecutable h fs executablePath t).1.2)
  ∧ ∀ p t',
      StartProviderExecutable h fs executablePath t = ((Some p, None), t') →
      ∃ fileInfo lis proc cmd,
        Stat fs executablePath = inl fileInfo
        ∧ isExecAny (GOOS h) (Mode fileInfo) = true
        ∧ t' = ev_Start cmd (inl proc) :: ev_Close lis None
                 :: ev_GetNextListener (inl lis) :: t
        ∧ cmd = {| Path := executablePath;
                   Env := Some (Environ h
                                ++ ["PORT=" +:+ pretty (Port lis)]);
                   Stderr := Some PtermWriter_Debug;
                   Stdout := Some PtermWriter_Debug |}
        ∧ p = {| providerPath := executablePath;
                 process := Some proc;
                 envMap := Some {["PORT" := pretty (Port lis)]};
                 Address := Addr_String lis |}
        ∧ started t' = proc :: started t.
Proof.
  destruct (StartProviderExecutable_cases h fs executablePath t)
    as [(err & t1 & ->) | (fileInfo & lis & proc & cmd & Hstat & Hexec
                            & Hcmd & ->)]; simpl.
  - split; [split; [intros _; by eexists | done] | by intros ?? [=]].
  - split; [split; [done | by intros [? ?]]|].
    intros p t' [= <- <-]. exists fileInfo, lis, proc, cmd.
    by repeat split.
Qed.

Lemma StartProviderExecutable_success_witness :
  ∃ p t',
    StartProviderExecutable working_host sample_fs "/opt/provider" []
    = ((Some p, None), t')
    ∧ process p = Some {| Pid := 4242%Z |}
    ∧ Address p = "127.0.0.1:40123"
    ∧ started t' = [ {| Pid := 4242%Z |} ].
Proof.
  destruct (StartProviderExecutable working_host sample_fs "/opt/provider" [])
    as [[[p|] [err|]] t'] eqn:Hrun; try (vm_compute in Hrun; discriminate).
  exists p, t'. split; [reflexivity|].
  destruct (StartProviderExecutable_success working_host sample_fs
              "/opt/provider" []) as [_ Hshape].
  destruct (Hshape p t' Hrun)
    as (fileInfo & lis & proc & cmd & _ & _ & Htrace & _ & Hp & Hstarted).
  vm_compute in Hrun. injection Hrun as Hp' Ht'.
  rewrite <- Hp', <- Ht'. repeat split.
Defined.

(** The process killed by [Stop] is the one [StartProviderExecutable]
    started: after a successful start, [Stop] on the returned handle sends
    one kill, to the process that start has added to the started ones,
    and succeeds exactly when that kill does. *)
Theorem Stop_kills_the_started_process
    (h : Host) (fs : Fs) (executablePath : string) (t t' : trace)
    (p : ProviderProcess) :
  StartProviderExecutable h fs executablePath t = ((Some p, None), t') →
  ∃ proc,
    started t' = proc :: started t
    ∧ kills t' = kills t
    ∧ kills (Stop h p t').2 = proc :: kills t'
    ∧ started (Stop h p t').2 = started t'
    ∧ ((Stop h p t').1.2 = None ↔ Kill h t' proc = None).
Proof.
  intros Hrun.
  destruct (StartProviderExecutable_cases h fs executablePath t)
    as [(err & t1 & Hfailed) | (fileInfo & lis & proc & cmd & _ & _ & _
                                 & Hstarted)].
  { rewrite Hfailed in Hrun. discriminate Hrun. }
  rewrite Hstarted in Hrun. injection Hrun as <- <-.
  exists proc. split; [done|]. split; [done|].
  unfold Stop, bind, ret, call_Kill. simpl.
  destruct (Kill h _ proc) as [err|]; simpl; by repeat split.
Qed.

Lemma Stop_kills_the_started_process_witness :
  ∃ p t',
    StartProviderExecutable working_host sample_fs "/opt/provider" []
    = ((Some p, None), t')
    ∧ kills (Stop working_host p t').2 = [ {| Pid := 4242%Z |} ].
Proof.
  destruct (StartProviderExecutable working_host sample_fs "/opt/provider" [])
    as [[[p|] [err|]] t'] eqn:Hrun; try (vm_compute in Hrun; discriminate).
  exists p, t'. split; [reflexivity|].
  destruct (Stop_kills_the_started_process working_host sample_fs
              "/opt/provider" [] t' p Hrun)
    as (proc & Hstarted & Hkills & Hstop & _).
  rewrite Hstop, Hkills. simpl. f_equal.
  vm_compute in Hrun. injection Hrun as _ Ht'. rewrite <- Ht' in Hstarted.
  simpl in Hstarted. by injection Hstarted as <-.
Defined.
